(** * Dilay: the winged-edge mesh kernel ([src/winged/mesh.cpp]) and the
      scene's ray query ([lib/src/scene.cpp]).

    A shallow embedding of [WingedMesh::Impl] and [Scene::Impl].  Methods
    become functions on an explicit state record; a method that can trip an
    [assert] returns [option] ([None] is the assertion failure).  Pointers to
    vertices, edges and faces are replaced by the identity of the object they
    point to (buffer index for a vertex, id for an edge or a face). *)

From Stdlib Require Import ZArith Lia.
From stdpp Require Import base option list gmap sets.

Set Warnings "-clear-no-such-hyp".

#[local] Open Scope Z_scope.

(** ** Machine integers *)

(** [unsigned int] arithmetic wraps modulo [2^32]. *)
Definition u32 (x : Z) : Z := x mod 2 ^ 32.

(** ** Identities and topology records *)

(** [Id]: the primitive behind [IdObject]. *)
Definition Id : Type := Z.

(** [WingedVertex (index, edge)]: a buffer index and one incident edge. *)
Record WingedVertex := mkVertex {
  v_index : Z;
  v_edge : option Id
}.

(** [WingedEdge]: the fourteen fields [addEdge] copies, plus the storage
    handle set by [iterator (...)]. *)
Record WingedEdge := mkEdge {
  e_vertex1 : option Z;
  e_vertex2 : option Z;
  e_leftFace : option Id;
  e_rightFace : option Id;
  e_leftPredecessor : option Id;
  e_leftSuccessor : option Id;
  e_rightPredecessor : option Id;
  e_rightSuccessor : option Id;
  e_previousSibling : option Id;
  e_nextSibling : option Id;
  e_id : Id;
  e_isTEdge : bool;
  e_faceGradient : Z;
  e_vertexGradient : Z;
  e_iterator : option nat
}.

(** [WingedFace (edge, id, octreeNode, firstIndexNumber)]. *)
Record WingedFace := mkFace {
  f_edge : option Id;
  f_id : Id;
  f_octreeNode : option Z;
  f_firstIndexNumber : Z
}.

Definition setFirstIndexNumber (n : Z) (f : WingedFace) : WingedFace :=
  mkFace (f_edge f) (f_id f) (f_octreeNode f) n.

(** ** Geometry taken as a parameter

    [glm::vec3], [Triangle], [Ray] and [float] are floating-point data; the
    exact ray/triangle test, the walk around a face's edge cycle
    ([adjacent-iterator.hpp]) and the vertex normal ([winged/vertex.cpp]) are
    not part of the two files embedded here.  They are operations of this
    class.  The walk reads the edge store and is entered through the face's
    edge and id; the normal reads the positions and the edge store. *)
Class Geometry := {
  Vec3 : Type;
  Triangle : Type;
  Ray : Type;
  Float : Type;
  zeroVec3 : Vec3;
  float_lt : Float → Float → bool;
  rayTriangle : Ray → Triangle → option (Float * Vec3);
  faceVertexIndices : list WingedEdge → option Id → Id → Z * Z * Z;
  vertexNormal : list Vec3 → list WingedEdge → WingedVertex → Vec3
}.

(** ** The ordered set of free offsets *)

(** [*s.begin ()] of a [std::set <unsigned int>]: its least element. *)
Definition set_begin (X : gset Z) : option Z :=
  foldr (λ x acc, Some (from_option (Z.min x) x acc)) None (elements X).

(** ** Render buffer *)

Module Mesh.
Section defs.
Context `{Geometry}.

(** Modelled from the spec: the render buffer class [Mesh] ([mesh.hpp] is
    not in src/).  Flat arrays of positions, normals and indices, the
    device-side copy made by [bufferData], and the render mode. *)
Record t := Make {
  vertices : list Vec3;
  normals : list Vec3;
  indices : list Z;
  device : option (list Vec3 * list Vec3 * list Z);
  wireframe : bool
}.

Definition empty : t := Make [] [] [] None false.

Definition setIndices (l : list Z) (m : t) : t :=
  Make (vertices m) (normals m) l (device m) (wireframe m).

(** Modelled from the spec: the counts of [Mesh], as [unsigned int]. *)
Definition numVertices (m : t) : Z := u32 (Z.of_nat (length (vertices m))).
Definition numIndices (m : t) : Z := u32 (Z.of_nat (length (indices m))).

(** Modelled from the spec: [Mesh::addVertex (pos) -> index]. *)
Definition addVertex (v : Vec3) (m : t) : Z * t :=
  (numVertices m,
   Make (vertices m ++ [v]) (normals m ++ [zeroVec3]) (indices m)
        (device m) (wireframe m)).

(** Modelled from the spec: [Mesh::popVertex], removes the last vertex;
    there must be one. *)
Definition popVertex (m : t) : option t :=
  match vertices m with
  | [] => None
  | _ => Some (Make (removelast (vertices m)) (removelast (normals m))
                    (indices m) (device m) (wireframe m))
  end.

Definition inRange {A} (i : Z) (l : list A) : bool :=
  bool_decide (0 ≤ i < Z.of_nat (length l)).

(** Modelled from the spec: [Mesh::setVertex], [setNormal], [setIndex]
    overwrite one entry; the entry must exist. *)
Definition setVertex (i : Z) (v : Vec3) (m : t) : option t :=
  if inRange i (vertices m)
  then Some (Make (<[Z.to_nat i := v]> (vertices m)) (normals m) (indices m)
                  (device m) (wireframe m))
  else None.

Definition setNormal (i : Z) (n : Vec3) (m : t) : option t :=
  if inRange i (normals m)
  then Some (Make (vertices m) (<[Z.to_nat i := n]> (normals m)) (indices m)
                  (device m) (wireframe m))
  else None.

Definition setIndex (slot value : Z) (m : t) : option t :=
  if inRange slot (indices m)
  then Some (setIndices (<[Z.to_nat slot := value]> (indices m)) m)
  else None.

(** Modelled from the spec: [Mesh::addIndex (value) -> slot]. *)
Definition addIndex (value : Z) (m : t) : Z * t :=
  (numIndices m, setIndices (indices m ++ [value]) m).

(** Modelled from the spec: [Mesh::allocateIndices (n)] appends [n] slots
    (their content is not specified; zero here). *)
Definition allocateIndices (n : Z) (m : t) : t :=
  setIndices (indices m ++ replicate (Z.to_nat n) 0) m.

(** Modelled from the spec: [Mesh::resizeIndices (n)], to exactly [n]
    entries, keeping the prefix. *)
Definition resizeIndices (n : Z) (m : t) : t :=
  setIndices (resize (Z.to_nat n) 0 (indices m)) m.

(** Modelled from the spec: [Mesh::popIndices (n)], drops [n] entries from
    the tail. *)
Definition popIndices (n : Z) (m : t) : t :=
  setIndices (take (length (indices m) - Z.to_nat n)%nat (indices m)) m.

(** Modelled from the spec: [Mesh::bufferData] uploads the three arrays. *)
Definition bufferData (m : t) : t :=
  Make (vertices m) (normals m) (indices m)
       (Some (vertices m, normals m, indices m)) (wireframe m).

(** Modelled from the spec: [Mesh::reset] empties the buffer. *)
Definition reset (m : t) : t := Make [] [] [] None (wireframe m).

Definition toggleRenderMode (m : t) : t :=
  Make (vertices m) (normals m) (indices m) (device m) (negb (wireframe m)).
End defs.
End Mesh.

(** ** Ray intersection result *)

Section intersection.
Context `{Geometry}.

(** Modelled from the spec: [WingedFaceIntersection]
    ([winged/face-intersection.hpp] is not in src/).  [None] is the state in
    which [isIntersection ()] is false; otherwise the closest hit so far
    with the mesh and the face it lies on. *)
Record Hit := mkHit {
  hit_distance : Float;
  hit_position : Vec3;
  hit_mesh : Id;
  hit_face : Id
}.

Definition WingedFaceIntersection : Type := option Hit.

Definition isIntersection (i : WingedFaceIntersection) : bool :=
  match i with Some _ => true | None => false end.

(** Modelled from the spec: a hit replaces the recorded one only when it is
    closer. *)
Definition updateIntersection (d : Float) (p : Vec3) (m f : Id)
    (i : WingedFaceIntersection) : WingedFaceIntersection :=
  match i with
  | None => Some (mkHit d p m f)
  | Some h => if float_lt d (hit_distance h) then Some (mkHit d p m f)
              else Some h
  end.
End intersection.

(** ** Spatial index *)

Module Octree.
Section defs.
Context `{Geometry}.

(** Modelled from the spec: the class [Octree] ([octree.hpp] is not in
    src/).  The spec fixes the contract and leaves the subdivision open;
    the faces are kept in the order [forEachFace] visits them, each with
    the triangle it was inserted with. *)
Record t := Make {
  root : option (Vec3 * Float);
  faces : list (WingedFace * Triangle)
}.

Definition empty : t := Make None [].

(** Modelled from the spec: [initRoot]; the index must be empty. *)
Definition initRoot (center : Vec3) (width : Float) (o : t) : option t :=
  match faces o with
  | [] => Some (Make (Some (center, width)) [])
  | _ => None
  end.

(** Modelled from the spec: [insertFace] stores the face with its
    geometry and returns the stored face. *)
Definition insertFace (f : WingedFace) (g : Triangle) (o : t)
    : WingedFace * t :=
  (f, Make (root o) (faces o ++ [(f, g)])).

Fixpoint removeFace (i : Id) (l : list (WingedFace * Triangle))
    : list (WingedFace * Triangle) :=
  match l with
  | [] => []
  | fg :: l' => if decide (f_id (fg.1) = i) then l'
                else fg :: removeFace i l'
  end.

(** Modelled from the spec: [deleteFace] removes a face by identity. *)
Definition deleteFace (f : WingedFace) (o : t) : t :=
  Make (root o) (removeFace (f_id f) (faces o)).

(** Modelled from the spec: [numFaces]. *)
Definition numFaces (o : t) : Z := u32 (Z.of_nat (length (faces o))).

(** Modelled from the spec: [face (id)], null when no face has the id. *)
Definition face (i : Id) (o : t) : option WingedFace :=
  fst <$> List.find (λ fg, bool_decide (f_id (fg.1) = i)) (faces o).

(** Modelled from the spec: [forEachFace] visits every stored face once,
    in the fixed order.  The callback may update the face and carries a
    state [S]; it may fail. *)
Fixpoint forEachFaceList {S} (cb : WingedFace → S → option (WingedFace * S))
    (l : list (WingedFace * Triangle)) (st : S)
    : option (list (WingedFace * Triangle) * S) :=
  match l with
  | [] => Some ([], st)
  | (f, g) :: l' =>
      match cb f st with
      | None => None
      | Some (f', st') =>
          match forEachFaceList cb l' st' with
          | None => None
          | Some (l'', st'') => Some ((f', g) :: l'', st'')
          end
      end
  end.

Definition forEachFace {S} (cb : WingedFace → S → option (WingedFace * S))
    (o : t) (st : S) : option (t * S) :=
  match forEachFaceList cb (faces o) st with
  | None => None
  | Some (l, st') => Some (Make (root o) l, st')
  end.

(** Modelled from the spec: [reset] clears all nodes. *)
Definition reset (o : t) : t := empty.

Definition testFace (mesh : Id) (ray : Ray)
    (acc : bool * WingedFaceIntersection) (fg : WingedFace * Triangle)
    : bool * WingedFaceIntersection :=
  match rayTriangle ray (fg.2) with
  | None => acc
  | Some (d, p) => (true, updateIntersection d p mesh (f_id (fg.1)) (acc.2))
  end.

(** Modelled from the spec: [intersects (mesh, ray, out)] tests the ray
    against the stored geometry of each face, records the closest hit and
    returns whether any hit occurred.  The index is not changed. *)
Definition intersects (mesh : Id) (ray : Ray) (i : WingedFaceIntersection)
    (o : t) : bool * WingedFaceIntersection :=
  foldl (testFace mesh ray) (false, i) (faces o).
End defs.
End Octree.

(** ** The mesh facade: [WingedMesh::Impl] *)

Module WingedMesh.
Section defs.
Context `{Geometry}.

(** The members of [WingedMesh::Impl].  [edgeCells] counts the cells the
    edge list has handed out: a [std::list] iterator names a cell, not a
    position. *)
Record Impl := mkImpl {
  meshId : Id;
  mesh : Mesh.t;
  vertices : list WingedVertex;
  edges : list WingedEdge;
  edgeCells : nat;
  octree : Octree.t;
  freeFirstIndexNumbers : gset Z
}.

Definition new (i : Id) : Impl :=
  mkImpl i Mesh.empty [] [] 0%nat Octree.empty ∅.

Definition setMesh (m : Mesh.t) (s : Impl) : Impl :=
  mkImpl (meshId s) m (vertices s) (edges s) (edgeCells s) (octree s)
         (freeFirstIndexNumbers s).

Definition setOctree (o : Octree.t) (s : Impl) : Impl :=
  mkImpl (meshId s) (mesh s) (vertices s) (edges s) (edgeCells s) o
         (freeFirstIndexNumbers s).

Definition setFree (X : gset Z) (s : Impl) : Impl :=
  mkImpl (meshId s) (mesh s) (vertices s) (edges s) (edgeCells s)
         (octree s) X.

(** The [for] loop of [vertexSLOW] and [edgeSLOW]: the first element that
    passes the test, [nullptr] when the loop runs out. *)
Fixpoint scan {A} (p : A → bool) (l : list A) : option A :=
  match l with
  | [] => None
  | x :: l' => if p x then Some x else scan p l'
  end.

Definition vertexSLOW (i : Z) (s : Impl) : option WingedVertex :=
  scan (λ v, bool_decide (v_index v = i)) (vertices s).

Definition lastVertex (s : Impl) : option WingedVertex := last (vertices s).

Definition edgeSLOW (i : Id) (s : Impl) : option WingedEdge :=
  scan (λ e, bool_decide (e_id e = i)) (edges s).

Definition face (i : Id) (s : Impl) : option WingedFace :=
  Octree.face i (octree s).

Definition addIndex (index : Z) (s : Impl) : Z * Impl :=
  let '(slot, m) := Mesh.addIndex index (mesh s) in (slot, setMesh m s).

Definition addVertex (v : Vec3) (s : Impl) : WingedVertex * Impl :=
  let '(index, m) := Mesh.addVertex v (mesh s) in
  let w := mkVertex index None in
  (w, mkImpl (meshId s) m (vertices s ++ [w]) (edges s) (edgeCells s)
             (octree s) (freeFirstIndexNumbers s)).

Definition addEdge (e : WingedEdge) (s : Impl) : WingedEdge * Impl :=
  let e' := mkEdge (e_vertex1 e) (e_vertex2 e) (e_leftFace e)
              (e_rightFace e) (e_leftPredecessor e) (e_leftSuccessor e)
              (e_rightPredecessor e) (e_rightSuccessor e)
              (e_previousSibling e) (e_nextSibling e) (e_id e)
              (e_isTEdge e) (e_faceGradient e) (e_vertexGradient e)
              (Some (edgeCells s)) in
  (e', mkImpl (meshId s) (mesh s) (vertices s) (edges s ++ [e'])
              (S (edgeCells s)) (octree s) (freeFirstIndexNumbers s)).

Definition numEdges (s : Impl) : Z := u32 (Z.of_nat (length (edges s))).
Definition numFaces (s : Impl) : Z := Octree.numFaces (octree s).
Definition numIndices (s : Impl) : Z := Mesh.numIndices (mesh s).

(** [assert (mesh.numVertices () == vertices.size ())], then the size. *)
Definition numVertices (s : Impl) : option Z :=
  if bool_decide (Mesh.numVertices (mesh s) = Z.of_nat (length (vertices s)))
  then Some (u32 (Z.of_nat (length (vertices s))))
  else None.

Definition isEmpty (s : Impl) : option bool :=
  nv ← numVertices s;
  Some (bool_decide (nv = 0) && bool_decide (numFaces s = 0)
        && bool_decide (numIndices s = 0)).

Definition hasFreeFirstIndexNumber (s : Impl) : bool :=
  bool_decide (0 < size (freeFirstIndexNumbers s))%nat.

Definition nextFreeFirstIndexNumber (s : Impl) : option (Z * Impl) :=
  if hasFreeFirstIndexNumber s then
    indexNumber ← set_begin (freeFirstIndexNumbers s);
    Some (indexNumber, setFree (freeFirstIndexNumbers s ∖ {[indexNumber]}) s)
  else None.

Definition addFace (f : WingedFace) (geometry : Triangle) (s : Impl)
    : option (WingedFace * Impl) :=
  '(firstIndexNumber, s1) ←
    (if hasFreeFirstIndexNumber s then nextFreeFirstIndexNumber s
     else Some (numIndices s, setMesh (Mesh.allocateIndices 3 (mesh s)) s));
  let '(f', o) :=
    Octree.insertFace (mkFace (f_edge f) (f_id f) None firstIndexNumber)
                      geometry (octree s1) in
  Some (f', setOctree o s1).

Definition setIndex (indexNumber index : Z) (s : Impl) : option Impl :=
  m ← Mesh.setIndex indexNumber index (mesh s); Some (setMesh m s).

Definition setVertex (index : Z) (v : Vec3) (s : Impl) : option Impl :=
  m ← Mesh.setVertex index v (mesh s); Some (setMesh m s).

Definition setNormal (index : Z) (n : Vec3) (s : Impl) : option Impl :=
  m ← Mesh.setNormal index n (mesh s); Some (setMesh m s).

Definition deleteEdge (edge : WingedEdge) (s : Impl) : Impl :=
  mkImpl (meshId s) (mesh s) (vertices s)
         (filter (λ e, e_iterator e ≠ e_iterator edge) (edges s))
         (edgeCells s) (octree s) (freeFirstIndexNumbers s).

Definition deleteFace (face : WingedFace) (s : Impl) : Impl :=
  let s1 :=
    if bool_decide (f_firstIndexNumber face = u32 (numIndices s - 3))
    then setMesh (Mesh.popIndices 3 (mesh s)) s
    else setFree ({[f_firstIndexNumber face]} ∪ freeFirstIndexNumbers s) s in
  setOctree (Octree.deleteFace face (octree s1)) s1.

Definition popVertex (s : Impl) : option Impl :=
  m ← Mesh.popVertex (mesh s);
  match vertices s with
  | [] => None
  | _ => Some (mkImpl (meshId s) m (removelast (vertices s)) (edges s)
                      (edgeCells s) (octree s) (freeFirstIndexNumbers s))
  end.

(** Modelled from the spec: [WingedFace::writeIndices (mesh, newFIN)]
    ([winged/face.cpp] is not in src/): the face takes the offset it is
    given, if any, and writes its 3 vertex indices from its offset on. *)
Definition faceWriteIndices (es : list WingedEdge) (newFIN : option Z)
    (f : WingedFace) (m : Mesh.t) : option (WingedFace * Mesh.t) :=
  let f' := match newFIN with
            | Some n => setFirstIndexNumber n f
            | None => f
            end in
  let '(a, b, c) := faceVertexIndices es (f_edge f') (f_id f') in
  let n := f_firstIndexNumber f' in
  m1 ← Mesh.setIndex n a m;
  m2 ← Mesh.setIndex (u32 (n + 1)) b m1;
  m3 ← Mesh.setIndex (u32 (n + 2)) c m2;
  Some (f', m3).

(** The two lambdas handed to [forEachFace]. *)
Definition repackFace (es : list WingedEdge) (f : WingedFace)
    (st : Mesh.t * Z) : option (WingedFace * (Mesh.t * Z)) :=
  '(f', m) ← faceWriteIndices es (Some (st.2)) f (st.1);
  Some (f', (m, u32 (st.2 + 3))).

Definition rewriteFace (es : list WingedEdge) (f : WingedFace)
    (m : Mesh.t) : option (WingedFace * Mesh.t) :=
  faceWriteIndices es None f m.

Definition writeIndices (s : Impl) : option Impl :=
  if bool_decide (0 < size (freeFirstIndexNumbers s))%nat then
    let m0 := Mesh.resizeIndices (u32 (numFaces s * 3)) (mesh s) in
    '(o, (m, _)) ← Octree.forEachFace (repackFace (edges s)) (octree s)
                                       (m0, 0);
    Some (mkImpl (meshId s) m (vertices s) (edges s) (edgeCells s) o ∅)
  else
    '(o, m) ← Octree.forEachFace (rewriteFace (edges s)) (octree s)
                                  (mesh s);
    Some (setOctree o (setMesh m s)).

(** Modelled from the spec: [WingedVertex::writeNormal (mesh)] stores the
    recomputed normal at the vertex's buffer index. *)
Fixpoint writeNormalsList (es : list WingedEdge) (vs : list WingedVertex)
    (m : Mesh.t) : option Mesh.t :=
  match vs with
  | [] => Some m
  | v :: vs' =>
      m' ← Mesh.setNormal (v_index v) (vertexNormal (Mesh.vertices m) es v) m;
      writeNormalsList es vs' m'
  end.

Definition writeNormals (s : Impl) : option Impl :=
  m ← writeNormalsList (edges s) (vertices s) (mesh s); Some (setMesh m s).

Definition write (s : Impl) : option Impl :=
  s1 ← writeIndices s; writeNormals s1.

Definition bufferData (s : Impl) : option Impl :=
  if bool_decide (size (freeFirstIndexNumbers s) = 0%nat)
  then Some (setMesh (Mesh.bufferData (mesh s)) s)
  else None.

Definition writeAndBuffer (s : Impl) : option Impl :=
  s1 ← write s; bufferData s1.

Definition reset (s : Impl) : Impl :=
  mkImpl (meshId s) (Mesh.reset (mesh s)) [] [] (edgeCells s)
         (Octree.reset (octree s)) (freeFirstIndexNumbers s).

Definition initOctreeRoot (center : Vec3) (width : Float) (s : Impl)
    : option Impl :=
  e ← isEmpty s;
  if e : bool then o ← Octree.initRoot center width (octree s);
                   Some (setOctree o s)
  else None.

Definition toggleRenderMode (s : Impl) : Impl :=
  setMesh (Mesh.toggleRenderMode (mesh s)) s.

Definition intersects (ray : Ray) (i : WingedFaceIntersection) (s : Impl)
    : bool * WingedFaceIntersection :=
  Octree.intersects (meshId s) ray i (octree s).

(** *** Edit sequences *)

Inductive VertexOp :=
| OpAddVertex (v : Vec3)
| OpPopVertex.

Definition vertexStep (s : Impl) (op : VertexOp) : option Impl :=
  match op with
  | OpAddVertex v => Some ((addVertex v s).2)
  | OpPopVertex => popVertex s
  end.

Fixpoint runVertexOps (ops : list VertexOp) (s : Impl) : option Impl :=
  match ops with
  | [] => Some s
  | op :: ops' => s' ← vertexStep s op; runVertexOps ops' s'
  end.

(** A face edit is [addFace] with a face whose id is not yet stored, on a
    buffer that 3 more slots keep within [unsigned int], or [deleteFace] on
    a stored face, named by its id. *)
Inductive FaceOp :=
| OpAddFace (f : WingedFace) (g : Triangle)
| OpDeleteFace (i : Id).

Definition faceStep (s : Impl) (op : FaceOp) : option Impl :=
  match op with
  | OpAddFace f g =>
      match face (f_id f) s with
      | Some _ => None
      | None =>
          if bool_decide (Z.of_nat (length (Mesh.indices (mesh s))) + 3
                          < 2 ^ 32)
          then snd <$> addFace f g s
          else None
      end
  | OpDeleteFace i => f ← face i s; Some (deleteFace f s)
  end.

Fixpoint runFaceOps (ops : list FaceOp) (s : Impl) : option Impl :=
  match ops with
  | [] => Some s
  | op :: ops' => s' ← faceStep s op; runFaceOps ops' s'
  end.

(** [n] calls of [addFace] in a row, the faces taken from [mk]. *)
Fixpoint addFaces (mk : nat → WingedFace * Triangle) (n : nat) (s : Impl)
    : option Impl :=
  match n with
  | O => Some s
  | S n' => s' ← addFaces mk n' s;
            snd <$> addFace ((mk n').1) ((mk n').2) s'
  end.
End defs.
End WingedMesh.

(** ** The scene: [Scene::Impl] *)

Inductive SelectionMode := Freeform | SphereNode.

Module Scene.
Section defs.
Context `{Geometry}.

(** The members of [Scene::Impl] the winged-mesh ray query reads. *)
Record Impl := mkImpl {
  wingedMeshes : list WingedMesh.Impl;
  selectionMode : SelectionMode
}.

(** [intersects (SelectionMode, ray, intersection)]: the loop drops what
    each mesh returns and the result is read off the output parameter. *)
Definition intersectsMode (t : SelectionMode) (ray : Ray)
    (i : WingedFaceIntersection) (s : Impl)
    : bool * WingedFaceIntersection :=
  let i' := match t with
            | Freeform =>
                foldl (λ acc m, (WingedMesh.intersects ray acc m).2) i
                      (wingedMeshes s)
            | SphereNode => i
            end in
  (isIntersection i', i').

Definition intersects (ray : Ray) (i : WingedFaceIntersection) (s : Impl)
    : bool * WingedFaceIntersection :=
  intersectsMode (selectionMode s) ray i s.
End defs.
End Scene.

(** ** Index writes as a list of assignments

    Specification-side view of one [forEachFace] pass of [writeIndices]:
    the slots it assigns, in order. *)

Section writes.
Context `{Geometry}.

Definition faceWrites (es : list WingedEdge) (f : WingedFace)
    : list (Z * Z) :=
  let '(a, b, c) := faceVertexIndices es (f_edge f) (f_id f) in
  let n := f_firstIndexNumber f in
  [(n, a); (u32 (n + 1), b); (u32 (n + 2), c)].

Fixpoint applyWrites (w : list (Z * Z)) (l : list Z) : option (list Z) :=
  match w with
  | [] => Some l
  | (i, v) :: w' =>
      if Mesh.inRange i l then applyWrites w' (<[Z.to_nat i := v]> l)
      else None
  end.

Definition facesWrites (es : list WingedEdge)
    (l : list (WingedFace * Triangle)) : list (Z * Z) :=
  flat_map (λ fg, faceWrites es (fg.1)) l.

(** The faces with the offsets [fin], [fin + 3], ... of the repack pass. *)
Fixpoint renumber (fin : Z) (l : list (WingedFace * Triangle))
    : list (WingedFace * Triangle) :=
  match l with
  | [] => []
  | (f, g) :: l' => (setFirstIndexNumber fin f, g) :: renumber (u32 (fin + 3)) l'
  end.

(** The slots of a mesh are in order: the buffer is a whole number of
    triples within [unsigned int]; every free offset and every stored face
    names a triple inside the buffer; no triple is both free and in use or
    used twice; face ids are unique. *)
Definition slotsOk (s : WingedMesh.Impl) : Prop :=
  let n := Z.of_nat (length (Mesh.indices (WingedMesh.mesh s))) in
  let fs := Octree.faces (WingedMesh.octree s) in
  n < 2 ^ 32 ∧ n mod 3 = 0
  ∧ (∀ x, x ∈ WingedMesh.freeFirstIndexNumbers s →
       0 ≤ x ∧ x mod 3 = 0 ∧ x + 3 ≤ n)
  ∧ (∀ fg, fg ∈ fs →
       0 ≤ f_firstIndexNumber (fg.1) ∧ f_firstIndexNumber (fg.1) mod 3 = 0
       ∧ f_firstIndexNumber (fg.1) + 3 ≤ n
       ∧ f_firstIndexNumber (fg.1) ∉ WingedMesh.freeFirstIndexNumbers s)
  ∧ NoDup ((λ fg, f_firstIndexNumber (fg.1)) <$> fs)
  ∧ NoDup ((λ fg, f_id (fg.1)) <$> fs).

(** Some face of the mesh is hit by the ray. *)
Definition meshHit (ray : Ray) (m : WingedMesh.Impl) : Prop :=
  ∃ fg, fg ∈ Octree.faces (WingedMesh.octree m) ∧ is_Some (rayTriangle ray (fg.2)).
End writes.

(** ** A small integer geometry for the examples

    Points are integer triples; a triangle [(x, d)] is hit by the ray [x]
    at distance [d]; a face with id [i] has the vertices [3i], [3i+1],
    [3i+2]. *)
Definition exampleGeometry : Geometry := {|
  Vec3 := Z * Z * Z;
  Triangle := Z * Z;
  Ray := Z;
  Float := Z;
  zeroVec3 := (0, 0, 0);
  float_lt := Z.ltb;
  rayTriangle := λ r t, if bool_decide (r = t.1) then Some (t.2, (t.1, 0, t.2))
                        else None;
  faceVertexIndices := λ _ _ i, (3 * i, 3 * i + 1, 3 * i + 2);
  vertexNormal := λ _ _ _, (0, 0, 1)
|}.

Definition exampleFace (i : Id) : WingedFace := mkFace None i None 0.

(** A face at offset 3. *)
Definition exampleTrailing : WingedFace := mkFace None 9 None 3.

(** A scene without meshes, and an intersection found earlier. *)
Definition exampleScene : @Scene.Impl exampleGeometry :=
  Scene.mkImpl [] Freeform.

Definition exampleHit : @WingedFaceIntersection exampleGeometry :=
  Some (@mkHit exampleGeometry 1 (0, 0, 1) 0 0).

Definition exampleEdge (i : Id) : WingedEdge :=
  mkEdge None None None None None None None None None None i false 0 0 None.

(** Three faces, then the middle one and the last one deleted. *)
Definition exampleTriangle (x d : Z) : @Triangle exampleGeometry := (x, d).

Definition exampleOps : list (@WingedMesh.FaceOp exampleGeometry) :=
  [WingedMesh.OpAddFace (exampleFace 0) (exampleTriangle 0 1);
   WingedMesh.OpAddFace (exampleFace 1) (exampleTriangle 1 1);
   WingedMesh.OpAddFace (exampleFace 2) (exampleTriangle 2 1);
   WingedMesh.OpDeleteFace 1;
   WingedMesh.OpDeleteFace 2].

(** A mesh with one face at offset 0, 6 index slots and offset 3 free: what
    [exampleOps] leaves.  The same mesh after [write ()]. *)
Definition exampleDirty : @WingedMesh.Impl exampleGeometry :=
  WingedMesh.mkImpl 0 (Mesh.Make [] [] [0; 0; 0; 0; 0; 0] None false) [] []
    0%nat (Octree.Make None [(exampleFace 0, exampleTriangle 0 1)]) {[3]}.

Definition exampleClean : @WingedMesh.Impl exampleGeometry :=
  WingedMesh.mkImpl 0 (Mesh.Make [] [] [0; 1; 2] None false) [] []
    0%nat (Octree.Make None [(exampleFace 0, exampleTriangle 0 1)]) ∅.

(** A scene in [SphereNode] mode that stores [exampleClean]. *)
Definition exampleSphereScene : @Scene.Impl exampleGeometry :=
  Scene.mkImpl [exampleClean] SphereNode.

(** Meshes that hold only a vertex, only a face, only an index. *)
Definition exampleVertexOnly : @WingedMesh.Impl exampleGeometry :=
  (WingedMesh.addVertex ((1, 0, 0) : @Vec3 exampleGeometry)
     (WingedMesh.new 0)).2.

Definition exampleFaceOnly : @WingedMesh.Impl exampleGeometry :=
  WingedMesh.mkImpl 0 Mesh.empty [] [] 0%nat
    (Octree.Make None [(exampleFace 0, exampleTriangle 0 1)]) ∅.

Definition exampleIndexOnly : @WingedMesh.Impl exampleGeometry :=
  (WingedMesh.addIndex 7 (WingedMesh.new 0)).2.

(** A new mesh with one edge added. *)
Definition exampleEdgeMesh : @WingedMesh.Impl exampleGeometry :=
  (WingedMesh.addEdge (exampleEdge 5) (WingedMesh.new 0)).2.

(** A mesh with one face at offset 3, 6 index slots and offset 0 free. *)
Definition exampleHole : @WingedMesh.Impl exampleGeometry :=
  WingedMesh.mkImpl 0 (Mesh.Make [] [] [0; 0; 0; 3; 4; 5] None false) [] []
    0%nat
    (Octree.Make None [(mkFace None 1 None 3, exampleTriangle 1 1)]) {[0]}.

Definition exampleVertexOps : list (@WingedMesh.VertexOp exampleGeometry) :=
  [WingedMesh.OpAddVertex ((1, 0, 0) : @Vec3 exampleGeometry);
   WingedMesh.OpAddVertex ((0, 1, 0) : @Vec3 exampleGeometry);
   WingedMesh.OpPopVertex].

(** ** Edits of every kind, in sequence *)

Section edits.
Context `{Geometry}.

(** An edge edit is [addEdge] with any prototype or [deleteEdge] on the
    stored edge at position [k] of the list. *)
Inductive EdgeOp :=
| OpAddEdge (e : WingedEdge)
| OpDeleteEdge (k : nat).

Definition edgeStep (s : WingedMesh.Impl) (op : EdgeOp)
    : option WingedMesh.Impl :=
  match op with
  | OpAddEdge e => Some ((WingedMesh.addEdge e s).2)
  | OpDeleteEdge k =>
      e ← WingedMesh.edges s !! k; Some (WingedMesh.deleteEdge e s)
  end.

Inductive EditOp :=
| EditVertex (op : WingedMesh.VertexOp)
| EditFace (op : WingedMesh.FaceOp)
| EditEdge (op : EdgeOp).

Definition editStep (s : WingedMesh.Impl) (op : EditOp)
    : option WingedMesh.Impl :=
  match op with
  | EditVertex o => WingedMesh.vertexStep s o
  | EditFace o => WingedMesh.faceStep s o
  | EditEdge o => edgeStep s o
  end.

Fixpoint runEdits (ops : list EditOp) (s : WingedMesh.Impl)
    : option WingedMesh.Impl :=
  match ops with
  | [] => Some s
  | op :: ops' => s' ← editStep s op; runEdits ops' s'
  end.

(** The vertex records and the buffer run in step: as many records as
    positions and normals, and the [k]-th record has buffer index [k]. *)
Definition verticesOk (s : WingedMesh.Impl) : Prop :=
  length (WingedMesh.vertices s) = length (Mesh.vertices (WingedMesh.mesh s))
  ∧ length (Mesh.normals (WingedMesh.mesh s))
    = length (Mesh.vertices (WingedMesh.mesh s))
  ∧ ∀ k v, WingedMesh.vertices s !! k = Some v → v_index v = Z.of_nat k.

(** Every stored edge carries the handle of a cell the list has handed out,
    and no two stored edges carry the same one. *)
Definition edgesOk (s : WingedMesh.Impl) : Prop :=
  (∀ e, e ∈ WingedMesh.edges s →
     ∃ c, e_iterator e = Some c ∧ (c < WingedMesh.edgeCells s)%nat)
  ∧ NoDup (e_iterator <$> WingedMesh.edges s).

(** Every triple of the index buffer is free or belongs to a face. *)
Definition slotsFull (s : WingedMesh.Impl) : Prop :=
  Z.of_nat (length (Mesh.indices (WingedMesh.mesh s)))
  = 3 * (Z.of_nat (length (Octree.faces (WingedMesh.octree s)))
         + Z.of_nat (size (WingedMesh.freeFirstIndexNumbers s))).

Definition meshOk (s : WingedMesh.Impl) : Prop :=
  verticesOk s ∧ edgesOk s ∧ slotsOk s ∧ slotsFull s.

(** The hit is what the ray/triangle test gives on a face of one of the
    meshes. *)
Definition genuineHit (ray : Ray) (ms : list WingedMesh.Impl) (h : Hit)
    : Prop :=
  ∃ m fg d p,
    m ∈ ms ∧ fg ∈ Octree.faces (WingedMesh.octree m)
    ∧ rayTriangle ray (fg.2) = Some (d, p)
    ∧ h = mkHit d p (WingedMesh.meshId m) (f_id (fg.1)).
End edits.

(** Two vertices, two faces and an edge, then the first face deleted. *)
Definition exampleEdits : list (@EditOp exampleGeometry) :=
  [EditVertex (WingedMesh.OpAddVertex ((1, 0, 0) : @Vec3 exampleGeometry));
   EditFace (WingedMesh.OpAddFace (exampleFace 0) (exampleTriangle 0 1));
   EditEdge (OpAddEdge (exampleEdge 5));
   EditVertex (WingedMesh.OpAddVertex ((0, 1, 0) : @Vec3 exampleGeometry));
   EditFace (WingedMesh.OpAddFace (exampleFace 1) (exampleTriangle 1 1));
   EditFace (WingedMesh.OpDeleteFace 0)].

(** The mesh [exampleEdits] builds. *)
Definition exampleEdited : @WingedMesh.Impl exampleGeometry :=
  default (WingedMesh.new 0) (runEdits exampleEdits (WingedMesh.new 0)).

(** * Properties *)

(** ** The least element of the free set *)

Lemma foldr_min_spec (l : list Z) (m : Z) :
  foldr (λ x acc, Some (from_option (Z.min x) x acc)) None l = Some m →
  m ∈ l ∧ ∀ y, y ∈ l → m ≤ y.
Proof.
  revert m. induction l as [|a l IH]; intros m Hm; simpl in Hm; [done|].
  destruct (foldr _ None l) as [z|] eqn:E; simpl in Hm; simplify_eq.
  - destruct (IH z eq_refl) as [Hz Hle]. split.
    + destruct (Z.min_spec a z) as [[_ E']|[_ E']]; rewrite E'; set_solver.
    + intros y [Hy|Hy]%elem_of_cons; [lia|]. specialize (Hle y Hy). lia.
  - destruct l; [|done]. split; [set_solver|].
    intros y Hy. apply list_elem_of_singleton in Hy. lia.
Qed.

Lemma set_begin_spec (X : gset Z) (m : Z) :
  set_begin X = Some m → m ∈ X ∧ ∀ y, y ∈ X → m ≤ y.
Proof.
  intros [Hm Hle]%foldr_min_spec. split; [by apply elem_of_elements|].
  intros y Hy. by apply Hle, elem_of_elements.
Qed.

Lemma set_begin_is_Some (X : gset Z) : X ≠ ∅ → is_Some (set_begin X).
Proof.
  intros HX. unfold set_begin.
  destruct (elements X) as [|a l] eqn:E; [|simpl; eauto].
  by apply elements_empty_inv, leibniz_equiv in E.
Qed.

Lemma set_begin_empty : set_begin ∅ = None.
Proof. unfold set_begin. by rewrite elements_empty. Qed.

Lemma size_pos_nonempty (X : gset Z) : (0 < size X)%nat ↔ X ≠ ∅.
Proof.
  split.
  - intros Hs ->. rewrite size_empty in Hs. lia.
  - intros HX. destruct (size X) eqn:E; [|lia].
    by apply size_empty_inv, leibniz_equiv in E.
Qed.

(** ** [addFace] and [deleteFace], case by case *)

Section faces.
Context `{Geometry}.
Import WingedMesh.

Lemma hasFree_true (s : Impl) :
  freeFirstIndexNumbers s ≠ ∅ → hasFreeFirstIndexNumber s = true.
Proof.
  intros HX. unfold hasFreeFirstIndexNumber.
  by apply bool_decide_eq_true, size_pos_nonempty.
Qed.

Lemma hasFree_false (s : Impl) :
  freeFirstIndexNumbers s = ∅ → hasFreeFirstIndexNumber s = false.
Proof.
  intros HX. unfold hasFreeFirstIndexNumber. rewrite HX, size_empty.
  apply bool_decide_eq_false. lia.
Qed.

Lemma addFace_reuse (s : Impl) (f : WingedFace) (g : Triangle) (m : Z) :
  set_begin (freeFirstIndexNumbers s) = Some m →
  addFace f g s =
    Some (mkFace (f_edge f) (f_id f) None m,
          mkImpl (meshId s) (mesh s) (vertices s) (edges s) (edgeCells s)
            (Octree.Make (Octree.root (octree s))
               (Octree.faces (octree s)
                  ++ [(mkFace (f_edge f) (f_id f) None m, g)]))
            (freeFirstIndexNumbers s ∖ {[m]})).
Proof.
  intros Hm. unfold addFace, nextFreeFirstIndexNumber.
  assert (freeFirstIndexNumbers s ≠ ∅) as HX.
  { apply set_begin_spec in Hm as [Hin _]. set_solver. }
  rewrite (hasFree_true s HX), Hm. reflexivity.
Qed.

Lemma addFace_grow (s : Impl) (f : WingedFace) (g : Triangle) :
  freeFirstIndexNumbers s = ∅ →
  addFace f g s =
    Some (mkFace (f_edge f) (f_id f) None (numIndices s),
          mkImpl (meshId s) (Mesh.allocateIndices 3 (mesh s)) (vertices s)
            (edges s) (edgeCells s)
            (Octree.Make (Octree.root (octree s))
               (Octree.faces (octree s)
                  ++ [(mkFace (f_edge f) (f_id f) None (numIndices s), g)]))
            (freeFirstIndexNumbers s)).
Proof.
  intros HX. unfold addFace. rewrite (hasFree_false s HX). reflexivity.
Qed.

Lemma addFace_total (s : Impl) (f : WingedFace) (g : Triangle) :
  is_Some (addFace f g s).
Proof.
  destruct (decide (freeFirstIndexNumbers s = ∅)) as [HX|HX].
  - rewrite (addFace_grow s f g HX). eauto.
  - destruct (set_begin_is_Some _ HX) as [m Hm].
    rewrite (addFace_reuse s f g m Hm). eauto.
Qed.

Lemma deleteFace_trailing (s : Impl) (f : WingedFace) :
  f_firstIndexNumber f = u32 (numIndices s - 3) →
  deleteFace f s =
    mkImpl (meshId s) (Mesh.popIndices 3 (mesh s)) (vertices s) (edges s)
      (edgeCells s) (Octree.deleteFace f (octree s))
      (freeFirstIndexNumbers s).
Proof.
  intros Hf. unfold deleteFace. by rewrite bool_decide_eq_true_2.
Qed.

Lemma deleteFace_inner (s : Impl) (f : WingedFace) :
  f_firstIndexNumber f ≠ u32 (numIndices s - 3) →
  deleteFace f s =
    mkImpl (meshId s) (mesh s) (vertices s) (edges s) (edgeCells s)
      (Octree.deleteFace f (octree s))
      ({[f_firstIndexNumber f]} ∪ freeFirstIndexNumbers s).
Proof.
  intros Hf. unfold deleteFace. by rewrite bool_decide_eq_false_2.
Qed.

Lemma u32_small (x : Z) : 0 ≤ x < 2 ^ 32 → u32 x = x.
Proof. intros Hx. unfold u32. by apply Z.mod_small. Qed.

Lemma u32_range (x : Z) : 0 ≤ u32 x < 2 ^ 32.
Proof. unfold u32. apply Z.mod_pos_bound. lia. Qed.

(** [n] faces added to a new mesh: no free offset, [3n] index slots, and
    the [k]-th face at offset [3k]. *)
Lemma addFaces_new (mk : nat → WingedFace * Triangle) (n : nat) (i : Id) :
  ∃ s, addFaces mk n (new i) = Some s
     ∧ freeFirstIndexNumbers s = ∅
     ∧ length (Mesh.indices (mesh s)) = (3 * n)%nat
     ∧ length (Octree.faces (octree s)) = n
     ∧ ∀ k, (k < n)%nat →
         Octree.faces (octree s) !! k =
           Some (mkFace (f_edge ((mk k).1)) (f_id ((mk k).1)) None
                        (u32 (3 * Z.of_nat k)), (mk k).2).
Proof.
  induction n as [|n (s & Hs & HX & Hlen & Hfs & Hk)]; simpl.
  - eexists; split; [done|]. repeat split; try done. intros k Hk; lia.
  - rewrite Hs; simpl. rewrite (addFace_grow s _ _ HX); simpl.
    eexists; split; [done|]; simpl. repeat split; [done|..].
    + rewrite length_app, Hlen. simpl. lia.
    + rewrite length_app, Hfs. simpl. lia.
    + intros k Hkn. destruct (decide (k = n)) as [->|Hne].
      * rewrite lookup_app_r by lia. rewrite Hfs, Nat.sub_diag; simpl.
        unfold numIndices, Mesh.numIndices. rewrite Hlen.
        do 3 f_equal. unfold u32. f_equal. lia.
      * rewrite lookup_app_l by lia. apply Hk. lia.
Qed.

(** C1.  With a free offset, [addFace] takes the least one out of the free
    set as the new face's first index number and leaves the index buffer as
    it is; with none, the face goes to offset [numIndices ()] and the buffer
    gets 3 more slots.  Hence [N] faces, one of them other than the last
    deleted, one added: [numIndices ()] is [3N]. *)
Theorem addFace_reuses_least_free_offset :
  (∀ (s : Impl) f g, freeFirstIndexNumbers s ≠ ∅ →
     ∃ m f' s', addFace f g s = Some (f', s')
       ∧ m ∈ freeFirstIndexNumbers s
       ∧ (∀ x, x ∈ freeFirstIndexNumbers s → m ≤ x)
       ∧ f_firstIndexNumber f' = m
       ∧ freeFirstIndexNumbers s' = freeFirstIndexNumbers s ∖ {[m]}
       ∧ mesh s' = mesh s)
  ∧ (∀ (s : Impl) f g, freeFirstIndexNumbers s = ∅ →
     ∃ f' s', addFace f g s = Some (f', s')
       ∧ f_firstIndexNumber f' = numIndices s
       ∧ Mesh.indices (mesh s') = Mesh.indices (mesh s) ++ [0; 0; 0]
       ∧ freeFirstIndexNumbers s' = ∅)
  ∧ (∀ mk (N k : nat) (i : Id) f g,
       (k < N - 1)%nat → 3 * Z.of_nat N < 2 ^ 32 →
       ∃ sN fk gk f' s',
         addFaces mk N (new i) = Some sN
         ∧ numIndices sN = 3 * Z.of_nat N
         ∧ Octree.faces (octree sN) !! k = Some (fk, gk)
         ∧ f_firstIndexNumber fk = 3 * Z.of_nat k
         ∧ addFace f g (deleteFace fk sN) = Some (f', s')
         ∧ f_firstIndexNumber f' = 3 * Z.of_nat k
         ∧ numIndices s' = 3 * Z.of_nat N).
Proof.
  split; [|split].
  - intros s f g HX. destruct (set_begin_is_Some _ HX) as [m Hm].
    destruct (set_begin_spec _ _ Hm) as [Hin Hle].
    eexists m, _, _. split; [by apply addFace_reuse|]. by simpl.
  - intros s f g HX. eexists _, _. split; [by apply addFace_grow|].
    by simpl.
  - intros mk N k i f g Hk HN.
    destruct (addFaces_new mk N i) as (sN & Hs & HX & Hlen & Hfs & Hlk).
    assert (numIndices sN = 3 * Z.of_nat N) as HnN.
    { unfold numIndices, Mesh.numIndices. rewrite Hlen.
      rewrite u32_small; lia. }
    set (fk := mkFace (f_edge ((mk k).1)) (f_id ((mk k).1)) None
                 (u32 (3 * Z.of_nat k))).
    assert (f_firstIndexNumber fk = 3 * Z.of_nat k) as Hfk.
    { simpl. rewrite u32_small; lia. }
    assert (f_firstIndexNumber fk ≠ u32 (numIndices sN - 3)) as Hne.
    { rewrite Hfk, HnN, u32_small; lia. }
    assert (set_begin (freeFirstIndexNumbers (deleteFace fk sN))
            = Some (3 * Z.of_nat k)) as Hb.
    { rewrite (deleteFace_inner sN fk Hne); simpl in *. rewrite HX, Hfk.
      destruct (set_begin_is_Some ({[3 * Z.of_nat k]} ∪ ∅ : gset Z))
        as [m Hm]; [set_solver|].
      rewrite Hm. f_equal. apply set_begin_spec in Hm as [Hin _].
      set_solver. }
    eexists sN, fk, ((mk k).2), _, _.
    split; [done|]. split; [done|]. split; [apply Hlk; lia|].
    split; [done|]. split; [by apply addFace_reuse|]. split; [done|].
    rewrite (deleteFace_inner sN fk Hne). done.
Qed.
End faces.

(** ** Lookup and removal in the face store *)

Section store.
Context `{Geometry}.

Lemma octree_face_Some (i : Id) (o : Octree.t) (f : WingedFace) :
  Octree.face i o = Some f → f_id f = i ∧ ∃ g, (f, g) ∈ Octree.faces o.
Proof.
  unfold Octree.face. induction (Octree.faces o) as [|[f0 g0] l IH]; simpl.
  - done.
  - case_bool_decide as Hi; simpl in *.
    + intros [= <-]. split; [done|]. exists g0. set_solver.
    + intros [? [g Hg]]%IH. split; [done|]. exists g. set_solver.
Qed.

Lemma octree_face_None (i : Id) (o : Octree.t) :
  Octree.face i o = None ↔ ∀ fg, fg ∈ Octree.faces o → f_id (fg.1) ≠ i.
Proof.
  unfold Octree.face. induction (Octree.faces o) as [|[f0 g0] l IH]; simpl.
  - split; [|done]. intros _ fg Hfg. by apply elem_of_nil in Hfg.
  - case_bool_decide as Hi; simpl in *.
    + split; [done|]. intros Hall. destruct (Hall (f0, g0)); [set_solver|done].
    + rewrite IH. split.
      * intros Hall fg [->|Hfg]%elem_of_cons; [done|by apply Hall].
      * intros Hall fg Hfg. apply Hall. set_solver.
Qed.

(** With unique ids, removal by id takes out exactly the stored face. *)
Lemma removeFace_split (l : list (WingedFace * Triangle)) (f : WingedFace)
    (g : Triangle) :
  NoDup ((λ fg, f_id (fg.1)) <$> l) → (f, g) ∈ l →
  ∃ l1 l2, l = l1 ++ (f, g) :: l2 ∧ Octree.removeFace (f_id f) l = l1 ++ l2.
Proof.
  induction l as [|[f0 g0] l IH]; simpl; intros Hnd Hin.
  - by apply elem_of_nil in Hin.
  - apply NoDup_cons in Hnd as [Hnotin Hnd]. case_decide as Hi; simpl in *.
    + apply elem_of_cons in Hin as [[= -> ->]|Hin].
      * by exists [], l.
      * destruct Hnotin. rewrite Hi.
        by apply (list_elem_of_fmap_2 (λ fg, f_id (fg.1)) l (f, g)).
    + apply elem_of_cons in Hin as [[= -> ->]|Hin]; [done|].
      destruct (IH Hnd Hin) as (l1 & l2 & -> & ->).
      by exists ((f0, g0) :: l1), l2.
Qed.

Lemma removeFace_length (i : Id) (l : list (WingedFace * Triangle))
    (fg : WingedFace * Triangle) :
  f_id (fg.1) = i → length (Octree.removeFace i (l ++ [fg])) = length l.
Proof.
  intros Hi. induction l as [|fg0 l IH]; simpl.
  - by rewrite decide_True.
  - case_decide; simpl; [|by rewrite IH].
    rewrite length_app. simpl. lia.
Qed.
End store.

(** ** The slot invariant along face edits *)

Section invariant.
Context `{Geometry}.
Import WingedMesh.

Lemma slotsOk_new (i : Id) : slotsOk (new i).
Proof.
  unfold slotsOk; simpl. repeat split; try done; try lia; try set_solver.
  all: by apply NoDup_nil.
Qed.

Lemma mod3_step (x n : Z) :
  x mod 3 = 0 → n mod 3 = 0 → x + 3 ≤ n → x ≠ n - 3 → x + 3 ≤ n - 3.
Proof.
  intros Hx Hn Hle Hne.
  apply Z.mod_divide in Hx as [a ->]; [|lia].
  apply Z.mod_divide in Hn as [b ->]; [|lia]. lia.
Qed.

Lemma slotsOk_addFace (s s' : Impl) (f f' : WingedFace) (g : Triangle) :
  slotsOk s → face (f_id f) s = None →
  Z.of_nat (length (Mesh.indices (mesh s))) + 3 < 2 ^ 32 →
  addFace f g s = Some (f', s') → slotsOk s'.
Proof.
  intros (Hn & Hmod & Hfree & Hfaces & Hfins & Hids) Hfresh Hroom Hadd.
  assert (∀ fg, fg ∈ Octree.faces (octree s) → f_id (fg.1) ≠ f_id f) as Hnew
    by by apply octree_face_None.
  destruct (decide (freeFirstIndexNumbers s = ∅)) as [HX|HX].
  - rewrite (addFace_grow s f g HX) in Hadd. simplify_eq. unfold slotsOk; simpl.
    assert (numIndices s = Z.of_nat (length (Mesh.indices (mesh s)))) as Hnum.
    { unfold numIndices, Mesh.numIndices. apply u32_small. lia. }
    rewrite length_app; simpl. rewrite !fmap_app; simpl.
    replace (Z.of_nat (length (Mesh.indices (mesh s)) + 3))
      with (Z.of_nat (length (Mesh.indices (mesh s))) + 3) by lia.
    split; [lia|]. split.
    { rewrite <- Zplus_mod_idemp_l, Hmod. done. }
    split. { intros x Hx. rewrite HX in Hx. set_solver. }
    split.
    { intros fg [Hfg|Hfg]%elem_of_app.
      - destruct (Hfaces fg Hfg) as (?&?&?&?). repeat split; try done; lia.
      - apply list_elem_of_singleton in Hfg as ->; simpl. rewrite Hnum, HX.
        repeat split; first [done | lia | set_solver]. }
    split.
    { apply NoDup_app. split; [done|]. split; [|apply NoDup_singleton].
      intros x (fg & -> & Hfg)%list_elem_of_fmap Hx.
      apply list_elem_of_singleton in Hx.
      destruct (Hfaces fg Hfg) as (?&?&?&?). lia. }
    apply NoDup_app. split; [done|]. split; [|apply NoDup_singleton].
    intros x (fg & -> & Hfg)%list_elem_of_fmap Hx.
    apply list_elem_of_singleton in Hx. by apply (Hnew fg Hfg).
  - destruct (set_begin_is_Some _ HX) as [m Hm].
    rewrite (addFace_reuse s f g m Hm) in Hadd. simplify_eq.
    apply set_begin_spec in Hm as [Hin _].
    unfold slotsOk; simpl. rewrite !fmap_app; simpl.
    split; [done|]. split; [done|].
    split. { intros x Hx. apply Hfree. set_solver. }
    split.
    { intros fg [Hfg|Hfg]%elem_of_app.
      - destruct (Hfaces fg Hfg) as (?&?&?&?).
        repeat split; first [done | set_solver].
      - apply list_elem_of_singleton in Hfg as ->; simpl.
        destruct (Hfree m Hin) as (?&?&?).
        repeat split; first [done | set_solver]. }
    split.
    { apply NoDup_app. split; [done|]. split; [|apply NoDup_singleton].
      intros x (fg & -> & Hfg)%list_elem_of_fmap Hx.
      apply list_elem_of_singleton in Hx.
      destruct (Hfaces fg Hfg) as (?&?&?&Hnot). apply Hnot. by rewrite Hx. }
    apply NoDup_app. split; [done|]. split; [|apply NoDup_singleton].
    intros x (fg & -> & Hfg)%list_elem_of_fmap Hx.
    apply list_elem_of_singleton in Hx. by apply (Hnew fg Hfg).
Qed.

Lemma NoDup_fmap_middle {A B} (h : A → B) (l1 l2 : list A) (a : A) :
  NoDup (h <$> l1 ++ a :: l2) →
  NoDup (h <$> l1 ++ l2) ∧ ∀ x, x ∈ l1 ++ l2 → h x ≠ h a.
Proof.
  rewrite <- Permutation_middle, fmap_cons. intros [Hnotin Hnd]%NoDup_cons.
  split; [done|]. intros x Hx Heq. apply Hnotin. rewrite <- Heq.
  by apply list_elem_of_fmap_2.
Qed.

Lemma slotsOk_deleteFace (s : Impl) (i : Id) (f : WingedFace) :
  slotsOk s → face i s = Some f → slotsOk (deleteFace f s).
Proof.
  intros (Hn & Hmod & Hfree & Hfaces & Hfins & Hids) Hf.
  apply octree_face_Some in Hf as [_ [g Hin]].
  destruct (removeFace_split _ f g Hids Hin) as (l1 & l2 & Hl & Hrm).
  destruct (Hfaces _ Hin) as (Hf0 & Hf3 & Hfn & Hffree); simpl in *.
  rewrite Hl in Hfins, Hids, Hfaces.
  apply NoDup_fmap_middle in Hfins as [Hfins Hfne].
  apply NoDup_fmap_middle in Hids as [Hids _].
  assert (∀ fg, fg ∈ l1 ++ l2 → fg ∈ l1 ++ (f, g) :: l2) as Hsub.
  { intros fg. rewrite !elem_of_app, elem_of_cons. tauto. }
  assert (numIndices s = Z.of_nat (length (Mesh.indices (mesh s)))) as Hnum.
  { unfold numIndices, Mesh.numIndices. apply u32_small. lia. }
  destruct (decide (f_firstIndexNumber f = u32 (numIndices s - 3))) as [Ht|Ht].
  - rewrite (deleteFace_trailing s f Ht). unfold slotsOk; simpl. rewrite Hrm.
    rewrite Hnum, u32_small in Ht by lia.
    rewrite length_take_le by lia.
    replace (Z.of_nat (length (Mesh.indices (mesh s)) - Z.to_nat 3))
      with (Z.of_nat (length (Mesh.indices (mesh s))) - 3) by lia.
    split; [lia|]. split.
    { rewrite <- Ht. done. }
    split.
    { intros x Hx. destruct (Hfree x Hx) as (?&?&?).
      repeat split; try done. apply mod3_step; try done.
      intros ->. apply Hffree. by rewrite Ht. }
    split; [|done].
    intros fg Hfg. destruct (Hfaces fg (Hsub fg Hfg)) as (?&?&?&?).
    repeat split; try done. apply mod3_step; try done.
    rewrite <- Ht. by apply (Hfne fg).
  - rewrite (deleteFace_inner s f Ht). unfold slotsOk; simpl. rewrite Hrm.
    split; [done|]. split; [done|]. split.
    { intros x [Hx|Hx]%elem_of_union; [|by apply Hfree].
      apply elem_of_singleton in Hx as ->. done. }
    split; [|done].
    intros fg Hfg. destruct (Hfaces fg (Hsub fg Hfg)) as (?&?&?&?).
    repeat split; try done.
    intros [Hx|Hx]%elem_of_union; [|done].
    apply elem_of_singleton in Hx. by apply (Hfne fg).
Qed.

Lemma slotsOk_run (ops : list FaceOp) (s s' : Impl) :
  slotsOk s → runFaceOps ops s = Some s' → slotsOk s'.
Proof.
  revert s. induction ops as [|op ops IH]; simpl; intros s Hs Hrun.
  - by simplify_eq.
  - destruct (faceStep s op) as [s1|] eqn:Hstep; simpl in Hrun; [|done].
    apply (IH s1); [|done]. destruct op as [f g|i]; simpl in Hstep.
    + destruct (face (f_id f) s) eqn:Hface; [done|].
      case_bool_decide as Hroom; [|done].
      destruct (addFace f g s) as [[f' s2]|] eqn:Hadd; simpl in Hstep;
        simplify_eq.
      by eapply slotsOk_addFace.
    + destruct (face i s) as [f|] eqn:Hface; simpl in Hstep; simplify_eq.
      by eapply slotsOk_deleteFace.
Qed.

(** C2, as the code has it.  Deleting the face at offset
    [numIndices () - 3], the last triple of the buffer, cuts the buffer by 3
    and leaves the free set alone; deleting any other face puts its offset
    into the free set and leaves the buffer alone.  After any sequence of
    face edits on a new mesh, every free offset is a multiple of 3, at most
    [numIndices () - 3], and not the offset of a stored face. *)
Theorem deleteFace_shrinks_or_frees :
  (∀ (s : Impl) f,
     f_firstIndexNumber f = u32 (numIndices s - 3) →
     (3 ≤ length (Mesh.indices (mesh s)))%nat →
     (length (Mesh.indices (mesh (deleteFace f s))) + 3)%nat
       = length (Mesh.indices (mesh s))
     ∧ freeFirstIndexNumbers (deleteFace f s) = freeFirstIndexNumbers s)
  ∧ (∀ (s : Impl) f,
     f_firstIndexNumber f ≠ u32 (numIndices s - 3) →
     freeFirstIndexNumbers (deleteFace f s)
       = {[f_firstIndexNumber f]} ∪ freeFirstIndexNumbers s
     ∧ mesh (deleteFace f s) = mesh s
     ∧ numIndices (deleteFace f s) = numIndices s)
  ∧ (∀ ops (i : Id) (s : Impl),
     runFaceOps ops (new i) = Some s →
     ∀ x, x ∈ freeFirstIndexNumbers s →
       x mod 3 = 0 ∧ 0 ≤ x ≤ numIndices s - 3
       ∧ ∀ fg, fg ∈ Octree.faces (octree s) → f_firstIndexNumber (fg.1) ≠ x).
Proof.
  split; [|split].
  - intros s f Ht Hlen. rewrite (deleteFace_trailing s f Ht); simpl.
    split; [|done]. rewrite length_take_le by lia. lia.
  - intros s f Ht. by rewrite (deleteFace_inner s f Ht).
  - intros ops i s Hrun x Hx.
    destruct (slotsOk_run ops _ _ (slotsOk_new i) Hrun)
      as (Hn & Hmod & Hfree & Hfaces & _).
    destruct (Hfree x Hx) as (?&?&?).
    assert (numIndices s = Z.of_nat (length (Mesh.indices (mesh s)))) as ->.
    { unfold numIndices, Mesh.numIndices. apply u32_small. lia. }
    split; [done|]. split; [lia|].
    intros fg Hfg Heq. subst x. by destruct (Hfaces fg Hfg) as (?&?&?&?).
Qed.
End invariant.

(** Counterexample to C2 as stated: three faces added, the middle one deleted, then
    the last one; the buffer has 6 slots and offset 3 is still free. *)
Lemma free_set_holds_trailing_offset :
  ∃ s, WingedMesh.runFaceOps exampleOps (WingedMesh.new 0) = Some s
     ∧ u32 (WingedMesh.numIndices s - 3) ∈ WingedMesh.freeFirstIndexNumbers s.
Proof.
  eexists. split; [vm_compute; reflexivity|].
  apply elem_of_elements. vm_compute. apply list_elem_of_here.
Qed.

(** ** Adding a face and deleting it again *)

Section roundtrip.
Context `{Geometry}.
Import WingedMesh.

Lemma octree_deleteFace (s : Impl) (f : WingedFace) :
  octree (deleteFace f s) = Octree.deleteFace f (octree s).
Proof. unfold deleteFace. by case_bool_decide. Qed.

Lemma numFaces_add_delete (s s' : Impl) (f f' : WingedFace) (g : Triangle) :
  addFace f g s = Some (f', s') → numFaces (deleteFace f' s') = numFaces s.
Proof.
  intros Hadd. unfold numFaces. rewrite octree_deleteFace.
  assert (∃ m, f' = mkFace (f_edge f) (f_id f) None m
             ∧ Octree.faces (octree s') = Octree.faces (octree s) ++ [(f', g)])
    as (m & -> & Hfs).
  { destruct (decide (freeFirstIndexNumbers s = ∅)) as [HX|HX].
    - rewrite (addFace_grow s f g HX) in Hadd. simplify_eq. by eexists.
    - destruct (set_begin_is_Some _ HX) as [m Hm].
      rewrite (addFace_reuse s f g m Hm) in Hadd. simplify_eq. by eexists. }
  unfold Octree.numFaces, Octree.deleteFace; simpl. rewrite Hfs.
  by rewrite removeFace_length.
Qed.

Lemma u32_sub_add (n : Z) : u32 (u32 (n + 3) - 3) = u32 n.
Proof.
  unfold u32. rewrite Zminus_mod_idemp_l. f_equal. lia.
Qed.

(** C6, as the code has it.  [addFace] and then [deleteFace] on the face it
    returned always restores [numFaces ()]; it restores [numIndices ()] and
    the free set as well unless the least free offset is
    [numIndices () - 3]. *)
Theorem addFace_deleteFace_round_trip :
  (∀ (s : Impl) f g,
     ∃ f' s', addFace f g s = Some (f', s')
       ∧ numFaces (deleteFace f' s') = numFaces s)
  ∧ (∀ (s : Impl) f g,
     set_begin (freeFirstIndexNumbers s) ≠ Some (u32 (numIndices s - 3)) →
     ∃ f' s', addFace f g s = Some (f', s')
       ∧ numFaces (deleteFace f' s') = numFaces s
       ∧ numIndices (deleteFace f' s') = numIndices s
       ∧ freeFirstIndexNumbers (deleteFace f' s') = freeFirstIndexNumbers s).
Proof.
  split.
  - intros s f g. destruct (addFace_total s f g) as [[f' s'] Hadd].
    exists f', s'. split; [done|]. by eapply numFaces_add_delete.
  - intros s f g Hmin. destruct (addFace_total s f g) as [[f' s'] Hadd].
    exists f', s'. split; [done|].
    split; [by eapply numFaces_add_delete|].
    destruct (decide (freeFirstIndexNumbers s = ∅)) as [HX|HX].
    + rewrite (addFace_grow s f g HX) in Hadd. simplify_eq.
      rewrite deleteFace_trailing; simpl.
      * split; [|done]. unfold numIndices, Mesh.numIndices; simpl.
        rewrite length_app; simpl.
        rewrite take_app_length'; [done|lia].
      * unfold numIndices, Mesh.numIndices; simpl.
        rewrite length_app; simpl.
        replace (Z.of_nat (length (Mesh.indices (mesh s)) + 3))
          with (Z.of_nat (length (Mesh.indices (mesh s))) + 3) by lia.
        by rewrite u32_sub_add.
    + destruct (set_begin_is_Some _ HX) as [m Hm].
      rewrite (addFace_reuse s f g m Hm) in Hadd. simplify_eq.
      rewrite deleteFace_inner; simpl.
      * split; [done|]. symmetry. apply union_difference_singleton_L.
        by apply set_begin_spec in Hm as [? _].
      * intros Heq. apply Hmin. by rewrite Hm, Heq.
Qed.
End roundtrip.

(** Counterexample to C6 as stated: with 6 slots and offset 3 free, the added face
    takes offset 3, and deleting it cuts the buffer to 3 slots and leaves
    the free set empty. *)
Lemma round_trip_loses_trailing_free_slot :
  ∃ s f' s',
    WingedMesh.runFaceOps exampleOps (WingedMesh.new 0) = Some s
    ∧ WingedMesh.addFace (exampleFace 7) (exampleTriangle 7 1) s = Some (f', s')
    ∧ WingedMesh.numIndices s = 6
    ∧ WingedMesh.numIndices (WingedMesh.deleteFace f' s') = 3
    ∧ elements (WingedMesh.freeFirstIndexNumbers s) = [3]
    ∧ elements (WingedMesh.freeFirstIndexNumbers (WingedMesh.deleteFace f' s'))
      = [].
Proof.
  eexists _, _, _. split; [vm_compute; reflexivity|].
  split; [vm_compute; reflexivity|]. by vm_compute.
Qed.

(** ** Vertices and the position array *)

Section vertices.
Context `{Geometry}.
Import WingedMesh.

Lemma length_removelast_S {A} (l : list A) :
  l ≠ [] → S (length (removelast l)) = length l.
Proof.
  induction l as [|a [|b l] IH]; [done|done|].
  intros _. change (removelast (a :: b :: l)) with (a :: removelast (b :: l)).
  simpl length. f_equal. by apply IH.
Qed.

Lemma addVertex_lengths (s : Impl) (v : Vec3) :
  length (vertices ((addVertex v s).2)) = S (length (vertices s))
  ∧ length (Mesh.vertices (mesh ((addVertex v s).2)))
    = S (length (Mesh.vertices (mesh s))).
Proof. simpl. rewrite !length_app. simpl. lia. Qed.

Lemma popVertex_lengths (s s' : Impl) :
  popVertex s = Some s' →
  S (length (vertices s')) = length (vertices s)
  ∧ S (length (Mesh.vertices (mesh s'))) = length (Mesh.vertices (mesh s)).
Proof.
  unfold popVertex, Mesh.popVertex.
  destruct (Mesh.vertices (mesh s)) as [|p ps] eqn:Hp; cbn -[removelast];
    [done|].
  destruct (vertices s) as [|w ws] eqn:Hw; [done|].
  intros [= <-]. split.
  - exact (length_removelast_S (w :: ws) ltac:(done)).
  - exact (length_removelast_S (p :: ps) ltac:(done)).
Qed.

Lemma parity_step (s s' : Impl) (op : VertexOp) :
  length (vertices s) = length (Mesh.vertices (mesh s)) →
  vertexStep s op = Some s' →
  length (vertices s') = length (Mesh.vertices (mesh s')).
Proof.
  intros Hpar. destruct op as [v|]; simpl.
  - intros [= <-]. simpl. rewrite !length_app. simpl. lia.
  - intros [? ?]%popVertex_lengths. lia.
Qed.

Lemma parity_run (ops : list VertexOp) (s s' : Impl) :
  length (vertices s) = length (Mesh.vertices (mesh s)) →
  runVertexOps ops s = Some s' →
  length (vertices s') = length (Mesh.vertices (mesh s')).
Proof.
  revert s. induction ops as [|op ops IH]; simpl; intros s Hpar Hrun.
  - by simplify_eq.
  - destruct (vertexStep s op) as [s1|] eqn:Hstep; simpl in Hrun; [|done].
    apply (IH s1); [|done]. by eapply parity_step.
Qed.

(** C5.  [addVertex] appends one vertex record and one buffer position,
    [popVertex] removes one of each, so along any sequence of the two from a
    new mesh the record count is the position count; [numVertices ()]
    returns only if its assertion of that equality holds, and then the
    count. *)
Theorem vertex_count_matches_buffer :
  (∀ (s : Impl) v,
     length (vertices ((addVertex v s).2)) = S (length (vertices s))
     ∧ length (Mesh.vertices (mesh ((addVertex v s).2)))
       = S (length (Mesh.vertices (mesh s))))
  ∧ (∀ (s s' : Impl), popVertex s = Some s' →
     S (length (vertices s')) = length (vertices s)
     ∧ S (length (Mesh.vertices (mesh s'))) = length (Mesh.vertices (mesh s)))
  ∧ (∀ ops (i : Id) (s : Impl), runVertexOps ops (new i) = Some s →
     length (vertices s) = length (Mesh.vertices (mesh s)))
  ∧ (∀ (s : Impl),
     (is_Some (numVertices s)
      ↔ Mesh.numVertices (mesh s) = Z.of_nat (length (vertices s)))
     ∧ ∀ n, numVertices s = Some n → n = u32 (Z.of_nat (length (vertices s))))
  ∧ (∀ ops (i : Id) (s : Impl), runVertexOps ops (new i) = Some s →
     Z.of_nat (length (vertices s)) < 2 ^ 32 →
     numVertices s = Some (Z.of_nat (length (vertices s)))).
Proof.
  split; [apply addVertex_lengths|]. split; [apply popVertex_lengths|].
  split; [intros ops i s; by apply parity_run|]. split.
  - intros s. unfold numVertices. case_bool_decide as Ha.
    + split; [split; eauto|]. by intros n [= <-].
    + split; [|done]. split; [by intros [? ?]|done].
  - intros ops i s Hrun Hlt.
    pose proof (parity_run ops (new i) s eq_refl Hrun) as Hpar.
    unfold numVertices, Mesh.numVertices. rewrite <- Hpar.
    rewrite u32_small by lia. by rewrite bool_decide_eq_true_2.
Qed.
End vertices.

(** ** Counts, emptiness and reset *)

Section counts.
Context `{Geometry}.
Import WingedMesh.

(** C8.  After [reset ()], whatever the mesh held, [isEmpty ()] is true and
    the four counts are 0. *)
Theorem reset_leaves_empty_mesh (s : Impl) :
  isEmpty (reset s) = Some true
  ∧ numVertices (reset s) = Some 0
  ∧ numEdges (reset s) = 0
  ∧ numFaces (reset s) = 0
  ∧ numIndices (reset s) = 0.
Proof. repeat split. Qed.

Lemma isEmpty_ignores_edges (s : Impl) (es : list WingedEdge) (c : nat) :
  isEmpty (mkImpl (meshId s) (mesh s) (vertices s) es c (octree s)
                  (freeFirstIndexNumbers s))
  = isEmpty s.
Proof. reflexivity. Qed.

(** C10.  [isEmpty ()] reads the vertex, face and index counts and not the
    edge list.  It answers true exactly when [numVertices ()] passes its
    assertion with 0 and the face count and the index count are 0, false
    exactly when the assertion passes and one of the three counts is not 0,
    and fails exactly when the assertion of [numVertices ()] fails.
    Replacing the edge list does not change its answer; with no vertices,
    faces and indices it answers true whatever edges are stored, and
    [initOctreeRoot] then passes its assertion, sets the root and keeps the
    edges; unless [isEmpty ()] answers true, [initOctreeRoot] fails. *)
Theorem isEmpty_does_not_read_edges :
  (∀ (s : Impl) es c,
     isEmpty (mkImpl (meshId s) (mesh s) (vertices s) es c (octree s)
                     (freeFirstIndexNumbers s))
     = isEmpty s)
  ∧ (∀ (s : Impl) center width,
     Mesh.vertices (mesh s) = [] → vertices s = [] →
     Octree.faces (octree s) = [] → Mesh.indices (mesh s) = [] →
     isEmpty s = Some true
     ∧ ∃ s', initOctreeRoot center width s = Some s'
         ∧ edges s' = edges s ∧ numEdges s' = numEdges s
         ∧ Octree.root (octree s') = Some (center, width))
  ∧ (∀ (s : Impl),
     isEmpty s = Some true
     ↔ numVertices s = Some 0 ∧ numFaces s = 0 ∧ numIndices s = 0)
  ∧ (∀ (s : Impl),
     isEmpty s = Some false
     ↔ ∃ n, numVertices s = Some n
          ∧ (n ≠ 0 ∨ numFaces s ≠ 0 ∨ numIndices s ≠ 0))
  ∧ (∀ (s : Impl), isEmpty s = None ↔ numVertices s = None)
  ∧ (∀ (s : Impl) center width,
     isEmpty s ≠ Some true → initOctreeRoot center width s = None).
Proof.
  split; [apply isEmpty_ignores_edges|]. split; [|split; [|split; [|split]]].
  - intros s center width Hp Hv Hf Hi.
    assert (isEmpty s = Some true) as He.
    { unfold isEmpty, numVertices, numFaces, numIndices, Mesh.numVertices,
        Mesh.numIndices, Octree.numFaces. by rewrite Hp, Hv, Hf, Hi. }
    split; [done|]. unfold initOctreeRoot, Octree.initRoot.
    rewrite He, Hf; simpl. by eexists.
  - intros s. unfold isEmpty. destruct (numVertices s) as [n|]; simpl.
    + split.
      * intros [= Hb]. apply andb_true_iff in Hb as [Hb H3].
        apply andb_true_iff in Hb as [H1 H2].
        apply bool_decide_eq_true in H1, H2, H3. by subst n.
      * intros ([= ->] & H2 & H3). by rewrite !bool_decide_eq_true_2.
    + split; [done|]. by intros [? _].
  - intros s. unfold isEmpty. destruct (numVertices s) as [n|]; simpl.
    + split.
      * intros [= Hb]. exists n. split; [done|].
        apply andb_false_iff in Hb as [Hb|H3].
        -- apply andb_false_iff in Hb as [H1|H2].
           ++ left. by apply bool_decide_eq_false in H1.
           ++ right; left. by apply bool_decide_eq_false in H2.
        -- right; right. by apply bool_decide_eq_false in H3.
      * intros (n' & [= <-] & [H1|[H2|H3]]); f_equal.
        -- by rewrite (bool_decide_eq_false_2 (n = 0)).
        -- rewrite (bool_decide_eq_false_2 (numFaces s = 0)) by done.
           by rewrite andb_false_r.
        -- rewrite (bool_decide_eq_false_2 (numIndices s = 0)) by done.
           by rewrite andb_false_r.
    + split; [done|]. by intros (n' & ? & _).
  - intros s. unfold isEmpty. by destruct (numVertices s).
  - intros s center width Hne. unfold initOctreeRoot.
    by destruct (isEmpty s) as [[|]|].
Qed.
End counts.

(** ** Lookups by identity *)

Section lookups.
Context `{Geometry}.
Import WingedMesh.

Lemma scan_spec {A} (p : A → bool) (l : list A) :
  match scan p l with
  | Some x => p x = true
              ∧ ∃ l1 l2, l = l1 ++ x :: l2 ∧ ∀ y, y ∈ l1 → p y = false
  | None => ∀ y, y ∈ l → p y = false
  end.
Proof.
  induction l as [|a l IH]; simpl.
  - intros y Hy. by apply elem_of_nil in Hy.
  - destruct (p a) eqn:Ha.
    + split; [done|]. exists [], l. split; [done|].
      intros y Hy. by apply elem_of_nil in Hy.
    + destruct (scan p l) as [x|].
      * destruct IH as (Hx & l1 & l2 & -> & Hl1). split; [done|].
        exists (a :: l1), l2. split; [done|].
        intros y [->|Hy]%elem_of_cons; [done|by apply Hl1].
      * intros y [->|Hy]%elem_of_cons; [done|by apply IH].
Qed.

(** C9.  [vertexSLOW], [edgeSLOW] and [face] return either the null result,
    and then no stored element has the identity asked for, or a stored
    element with that identity; for the two scans it is the first such
    element of the list.  None of them can fail. *)
Theorem lookups_miss_with_null :
  (∀ (s : Impl) i,
     match vertexSLOW i s with
     | Some v => v_index v = i
                 ∧ ∃ l1 l2, vertices s = l1 ++ v :: l2
                     ∧ ∀ w, w ∈ l1 → v_index w ≠ i
     | None => ∀ w, w ∈ vertices s → v_index w ≠ i
     end)
  ∧ (∀ (s : Impl) i,
     match edgeSLOW i s with
     | Some e => e_id e = i
                 ∧ ∃ l1 l2, edges s = l1 ++ e :: l2
                     ∧ ∀ w, w ∈ l1 → e_id w ≠ i
     | None => ∀ w, w ∈ edges s → e_id w ≠ i
     end)
  ∧ (∀ (s : Impl) i,
     match face i s with
     | Some f => f_id f = i ∧ ∃ g, (f, g) ∈ Octree.faces (octree s)
     | None => ∀ fg, fg ∈ Octree.faces (octree s) → f_id (fg.1) ≠ i
     end).
Proof.
  split; [|split].
  - intros s i. unfold vertexSLOW.
    pose proof (scan_spec (λ v, bool_decide (v_index v = i)) (vertices s)) as Hs.
    destruct (scan _ (vertices s)) as [v|].
    + destruct Hs as (Hv & l1 & l2 & Hl & Hl1).
      split; [by apply bool_decide_eq_true in Hv|]. exists l1, l2.
      split; [done|]. intros w Hw. specialize (Hl1 w Hw).
      by apply bool_decide_eq_false in Hl1.
    + intros w Hw. specialize (Hs w Hw). by apply bool_decide_eq_false in Hs.
  - intros s i. unfold edgeSLOW.
    pose proof (scan_spec (λ e, bool_decide (e_id e = i)) (edges s)) as Hs.
    destruct (scan _ (edges s)) as [e|].
    + destruct Hs as (He & l1 & l2 & Hl & Hl1).
      split; [by apply bool_decide_eq_true in He|]. exists l1, l2.
      split; [done|]. intros w Hw. specialize (Hl1 w Hw).
      by apply bool_decide_eq_false in Hl1.
    + intros w Hw. specialize (Hs w Hw). by apply bool_decide_eq_false in Hs.
  - intros s i. unfold face. destruct (Octree.face i (octree s)) as [f|] eqn:Hf.
    + by apply octree_face_Some.
    + by apply octree_face_None.
Qed.
End lookups.

(** ** Index writes *)

Section indexWrites.
Context `{Geometry}.
Import WingedMesh.

Lemma applyWrites_app (w1 w2 : list (Z * Z)) (l : list Z) :
  applyWrites (w1 ++ w2) l = applyWrites w1 l ≫= applyWrites w2.
Proof.
  revert l. induction w1 as [|[i v] w1 IH]; intros l; simpl; [done|].
  destruct (Mesh.inRange i l); [apply IH|done].
Qed.

Lemma applyWrites_length (w : list (Z * Z)) (l l' : list Z) :
  applyWrites w l = Some l' → length l' = length l.
Proof.
  revert l. induction w as [|[i v] w IH]; intros l; simpl.
  - by intros [= <-].
  - destruct (Mesh.inRange i l); [|done].
    intros ->%IH. apply length_insert.
Qed.

Lemma inRange_length {A} (i : Z) (l1 l2 : list A) :
  length l1 = length l2 → Mesh.inRange i l1 = Mesh.inRange i l2.
Proof. intros Hl. unfold Mesh.inRange. by rewrite Hl. Qed.

Lemma inRange_spec {A} (i : Z) (l : list A) :
  Mesh.inRange i l = true ↔ 0 ≤ i < Z.of_nat (length l).
Proof. unfold Mesh.inRange. apply bool_decide_eq_true. Qed.

(** A pass changes only the slots it assigns. *)
Lemma applyWrites_outside (w : list (Z * Z)) (l l' : list Z) (k : nat) :
  applyWrites w l = Some l' → Z.of_nat k ∉ w.*1 → l' !! k = l !! k.
Proof.
  revert l. induction w as [|[i v] w IH]; intros l; simpl.
  - by intros [= <-].
  - destruct (Mesh.inRange i l) eqn:Hr; [|done].
    apply inRange_spec in Hr. intros Hw Hk.
    apply not_elem_of_cons in Hk as [Hki Hk].
    rewrite (IH _ Hw Hk). apply list_lookup_insert_ne. lia.
Qed.

(** What a pass leaves behind depends only on the slots it does not
    assign. *)
Lemma applyWrites_agree (w : list (Z * Z)) (l1 l2 : list Z) :
  length l1 = length l2 →
  (∀ k, Z.of_nat k ∉ w.*1 → l1 !! k = l2 !! k) →
  applyWrites w l1 = applyWrites w l2.
Proof.
  revert l1 l2. induction w as [|[i v] w IH]; intros l1 l2 Hlen Hag; simpl.
  - f_equal. apply list_eq. intros k. apply Hag. simpl. apply not_elem_of_nil.
  - rewrite (inRange_length i l1 l2 Hlen).
    destruct (Mesh.inRange i l2) eqn:Hr; [|done].
    apply inRange_spec in Hr. apply IH.
    + by rewrite !length_insert.
    + intros k Hk. destruct (decide (k = Z.to_nat i)) as [->|Hne].
      * rewrite !list_lookup_insert_eq; [done|lia|lia].
      * rewrite !list_lookup_insert_ne by done. apply Hag.
        simpl. apply not_elem_of_cons. split; [lia|done].
Qed.

(** Running the same pass again changes nothing. *)
Lemma applyWrites_idem (w : list (Z * Z)) (l l' : list Z) :
  applyWrites w l = Some l' → applyWrites w l' = Some l'.
Proof.
  intros Hw. rewrite <- Hw. apply applyWrites_agree.
  - by eapply applyWrites_length.
  - intros k Hk. by eapply applyWrites_outside.
Qed.

Lemma setIndices_indices (m : Mesh.t) : Mesh.setIndices (Mesh.indices m) m = m.
Proof. by destruct m. Qed.

Lemma faceWriteIndices_spec (es : list WingedEdge) (newFIN : option Z)
    (f : WingedFace) (m : Mesh.t) :
  let f' := match newFIN with
            | Some n => setFirstIndexNumber n f
            | None => f
            end in
  faceWriteIndices es newFIN f m =
    (l ← applyWrites (faceWrites es f') (Mesh.indices m);
     Some (f', Mesh.setIndices l m)).
Proof.
  intros f'. unfold faceWriteIndices, faceWrites. fold f'.
  destruct (faceVertexIndices es (f_edge f') (f_id f')) as [[a b] c].
  unfold Mesh.setIndex; simpl.
  destruct (Mesh.inRange (f_firstIndexNumber f') (Mesh.indices m)); [|done].
  simpl.
  destruct (Mesh.inRange (u32 (f_firstIndexNumber f' + 1)) _); [|done]. simpl.
  destruct (Mesh.inRange (u32 (f_firstIndexNumber f' + 2)) _); [|done]. done.
Qed.

Lemma faceWrites_setFirstIndexNumber (es : list WingedEdge) (f : WingedFace)
    (n : Z) :
  faceWrites es (setFirstIndexNumber n f) =
    let '(a, b, c) := faceVertexIndices es (f_edge f) (f_id f) in
    [(n, a); (u32 (n + 1), b); (u32 (n + 2), c)].
Proof. reflexivity. Qed.

(** The in-place pass: the faces stay, the buffer takes their writes. *)
Lemma rewrite_pass (es : list WingedEdge) (l : list (WingedFace * Triangle))
    (m : Mesh.t) :
  Octree.forEachFaceList (rewriteFace es) l m =
    (l' ← applyWrites (facesWrites es l) (Mesh.indices m);
     Some (l, Mesh.setIndices l' m)).
Proof.
  revert m. induction l as [|[f g] l IH]; intros m; simpl.
  - by rewrite setIndices_indices.
  - unfold rewriteFace at 1. rewrite faceWriteIndices_spec.
    unfold facesWrites in *. simpl. rewrite applyWrites_app.
    destruct (applyWrites (faceWrites es f) (Mesh.indices m)) as [l1|];
      simpl; [|done].
    rewrite IH. simpl.
    destruct (applyWrites _ l1) as [l2|]; simpl; done.
Qed.

(** The repack pass: the faces are renumbered from [fin] on, the buffer
    takes the writes of the renumbered faces. *)
Lemma repack_pass (es : list WingedEdge) (l : list (WingedFace * Triangle))
    (m : Mesh.t) (fin : Z) :
  ∃ fin',
    Octree.forEachFaceList (repackFace es) l (m, fin) =
      (l' ← applyWrites (facesWrites es (renumber fin l)) (Mesh.indices m);
       Some (renumber fin l, (Mesh.setIndices l' m, fin'))).
Proof.
  revert m fin. induction l as [|[f g] l IH]; intros m fin; simpl.
  - exists fin. by rewrite setIndices_indices.
  - unfold repackFace at 1. simpl. rewrite faceWriteIndices_spec.
    unfold facesWrites in *. simpl. rewrite applyWrites_app.
    destruct (applyWrites (faceWrites es (setFirstIndexNumber fin f))
                (Mesh.indices m)) as [l1|]; simpl; [|by exists 0].
    destruct (IH (Mesh.setIndices l1 m) (u32 (fin + 3))) as [fin' ->].
    exists fin'. simpl.
    destruct (applyWrites _ l1) as [l2|]; simpl; done.
Qed.
End indexWrites.

(** ** [writeIndices], [writeNormals], [write] *)

Section writePipeline.
Context `{Geometry}.
Import WingedMesh.

Lemma length_renumber (fin : Z) (l : list (WingedFace * Triangle)) :
  length (renumber fin l) = length l.
Proof.
  revert fin. induction l as [|[f g] l IH]; intros fin; simpl; [done|].
  by rewrite IH.
Qed.

(** The [k]-th face of the repack pass gets offset [fin + 3k]. *)
Lemma renumber_lookup (fin : Z) (l : list (WingedFace * Triangle)) (k : nat)
    (fg : WingedFace * Triangle) :
  0 ≤ fin → fin + 3 * Z.of_nat (length l) < 2 ^ 32 →
  renumber fin l !! k = Some fg →
  f_firstIndexNumber (fg.1) = fin + 3 * Z.of_nat k
  ∧ ∃ f, l !! k = Some (f, fg.2)
       ∧ fg.1 = setFirstIndexNumber (fin + 3 * Z.of_nat k) f.
Proof.
  revert fin k. induction l as [|[f g] l IH]; intros fin k Hfin Hmax; simpl.
  - done.
  - simpl in Hmax. destruct k as [|k]; simpl.
    + intros [= <-]; simpl. replace (fin + 3 * Z.of_nat 0) with fin by lia.
      split; [done|]. by exists f.
    + intros Hk. rewrite u32_small in Hk by lia.
      apply IH in Hk as (Hf & f0 & Hl & Hfg); [|lia|lia].
      replace (fin + 3 * Z.of_nat (S k)) with (fin + 3 + 3 * Z.of_nat k)
        by lia.
      split; [done|]. by exists f0.
Qed.

Lemma applyWrites_triple (n a b c : Z) (w : list (Z * Z)) (l0 : list Z) :
  0 ≤ n → n + 3 ≤ Z.of_nat (length l0) → n + 3 ≤ 2 ^ 32 →
  applyWrites ((n, a) :: (u32 (n + 1), b) :: (u32 (n + 2), c) :: w) l0 =
    applyWrites w (<[Z.to_nat (n + 2) := c]>
                     (<[Z.to_nat (n + 1) := b]> (<[Z.to_nat n := a]> l0))).
Proof.
  intros Hn Hroom Hmax. simpl. rewrite !(u32_small (n + _)) by lia.
  assert (Mesh.inRange n l0 = true) as ->
    by (apply inRange_spec; lia).
  assert (Mesh.inRange (n + 1) (<[Z.to_nat n := a]> l0) = true) as ->
    by (apply inRange_spec; rewrite length_insert; lia).
  assert (Mesh.inRange (n + 2)
            (<[Z.to_nat (n + 1) := b]> (<[Z.to_nat n := a]> l0)) = true) as ->
    by (apply inRange_spec; rewrite !length_insert; lia).
  done.
Qed.

(** The repack writes stay inside a buffer that has room for them. *)
Lemma repack_writes_ok (es : list WingedEdge)
    (l : list (WingedFace * Triangle)) (fin : Z) (l0 : list Z) :
  0 ≤ fin → fin + 3 * Z.of_nat (length l) ≤ Z.of_nat (length l0) →
  Z.of_nat (length l0) < 2 ^ 32 →
  is_Some (applyWrites (facesWrites es (renumber fin l)) l0).
Proof.
  revert fin l0. induction l as [|[f g] l IH]; intros fin l0 Hfin Hroom Hmax.
  - simpl. eauto.
  - simpl in Hroom. unfold facesWrites in *. simpl.
    rewrite faceWrites_setFirstIndexNumber.
    destruct (faceVertexIndices es (f_edge f) (f_id f)) as [[a b] c].
    cbn [app]. rewrite applyWrites_triple by lia.
    rewrite u32_small by lia.
    apply IH; rewrite ?length_insert; lia.
Qed.

(** The in-place writes stay inside the buffer when every face's triple
    does. *)
Lemma rewrite_writes_ok (es : list WingedEdge)
    (l : list (WingedFace * Triangle)) (N : Z) (l0 : list Z) :
  N ≤ Z.of_nat (length l0) → N < 2 ^ 32 →
  (∀ fg, fg ∈ l → 0 ≤ f_firstIndexNumber (fg.1)
                  ∧ f_firstIndexNumber (fg.1) + 3 ≤ N) →
  is_Some (applyWrites (facesWrites es l) l0).
Proof.
  revert l0. induction l as [|[f g] l IH]; intros l0 HN Hmax Hall.
  - simpl. eauto.
  - unfold facesWrites in *. simpl. unfold faceWrites at 1.
    destruct (faceVertexIndices es (f_edge f) (f_id f)) as [[a b] c].
    destruct (Hall (f, g)) as [Hf0 Hf3]; [set_solver|]. simpl in Hf0, Hf3.
    cbn [app]. rewrite applyWrites_triple by lia.
    apply IH; rewrite ?length_insert; try lia.
    intros fg Hfg. apply Hall. set_solver.
Qed.

Lemma writeNormalsList_Some (es : list WingedEdge) (vs : list WingedVertex)
    (m m' : Mesh.t) :
  writeNormalsList es vs m = Some m' →
  Mesh.indices m' = Mesh.indices m
  ∧ length (Mesh.normals m') = length (Mesh.normals m)
  ∧ Forall (λ v, Mesh.inRange (v_index v) (Mesh.normals m) = true) vs.
Proof.
  revert m. induction vs as [|v vs IH]; intros m; simpl.
  - intros [= <-]. by repeat split.
  - unfold Mesh.setNormal at 1.
    destruct (Mesh.inRange (v_index v) (Mesh.normals m)) eqn:Hr; [|done].
    simpl. intros (Hi & Hl & Hall)%IH. simpl in *.
    rewrite length_insert in Hl. repeat split; try done.
    constructor; [done|]. eapply Forall_impl; [exact Hall|].
    intros w Hw. simpl in Hw. rewrite <- Hw. apply inRange_length.
    by rewrite length_insert.
Qed.

Lemma writeNormalsList_ok (es : list WingedEdge) (vs : list WingedVertex)
    (m : Mesh.t) :
  Forall (λ v, Mesh.inRange (v_index v) (Mesh.normals m) = true) vs →
  is_Some (writeNormalsList es vs m).
Proof.
  revert m. induction vs as [|v vs IH]; intros m Hall; simpl; [eauto|].
  apply Forall_cons in Hall as [Hv Hall].
  unfold Mesh.setNormal at 1. rewrite Hv. simpl. apply IH.
  eapply Forall_impl; [exact Hall|]. intros w Hw. simpl. rewrite <- Hw.
  apply inRange_length. by rewrite length_insert.
Qed.

(** What [writeIndices] leaves: no free offset, and an index buffer that
    some buffer of the same length turns into under the writes of the
    stored faces. *)
Lemma writeIndices_Some (s s' : Impl) :
  writeIndices s = Some s' →
  freeFirstIndexNumbers s' = ∅
  ∧ edges s' = edges s ∧ vertices s' = vertices s
  ∧ Mesh.normals (mesh s') = Mesh.normals (mesh s)
  ∧ ∃ l0, applyWrites (facesWrites (edges s) (Octree.faces (octree s'))) l0
          = Some (Mesh.indices (mesh s')).
Proof.
  unfold writeIndices. case_bool_decide as Hfree.
  - unfold Octree.forEachFace.
    destruct (repack_pass (edges s) (Octree.faces (octree s))
                (Mesh.resizeIndices (u32 (numFaces s * 3)) (mesh s)) 0)
      as [fin' ->].
    destruct (applyWrites _ _) as [l'|] eqn:Hw; simpl; [|done].
    intros [= <-]; simpl. repeat split. by eexists.
  - unfold Octree.forEachFace. rewrite rewrite_pass.
    destruct (applyWrites _ _) as [l'|] eqn:Hw; simpl; [|done].
    intros [= <-]; simpl. repeat split; [|by eexists].
    apply leibniz_equiv, size_empty_inv. lia.
Qed.

Lemma numFaces_small (s : Impl) :
  3 * Z.of_nat (length (Octree.faces (octree s))) < 2 ^ 32 →
  numFaces s = Z.of_nat (length (Octree.faces (octree s)))
  ∧ u32 (numFaces s * 3) = 3 * Z.of_nat (length (Octree.faces (octree s))).
Proof.
  intros Hmax. unfold numFaces, Octree.numFaces.
  rewrite (u32_small (Z.of_nat _)) by lia. split; [done|].
  rewrite u32_small; lia.
Qed.

Lemma writeIndices_repack (s : Impl) :
  freeFirstIndexNumbers s ≠ ∅ →
  3 * Z.of_nat (length (Octree.faces (octree s))) < 2 ^ 32 →
  ∃ l',
    applyWrites (facesWrites (edges s) (renumber 0 (Octree.faces (octree s))))
      (resize (3 * length (Octree.faces (octree s))) 0 (Mesh.indices (mesh s)))
      = Some l'
    ∧ writeIndices s =
        Some (mkImpl (meshId s) (Mesh.setIndices l' (mesh s)) (vertices s)
                (edges s) (edgeCells s)
                (Octree.Make (Octree.root (octree s))
                   (renumber 0 (Octree.faces (octree s)))) ∅).
Proof.
  intros HX Hmax. destruct (numFaces_small s Hmax) as [_ Hn].
  unfold writeIndices. rewrite bool_decide_eq_true_2
    by by apply size_pos_nonempty.
  unfold Octree.forEachFace.
  destruct (repack_pass (edges s) (Octree.faces (octree s))
              (Mesh.resizeIndices (u32 (numFaces s * 3)) (mesh s)) 0)
    as [fin' ->].
  unfold Mesh.resizeIndices. rewrite Hn. simpl.
  replace (Z.to_nat (3 * Z.of_nat (length (Octree.faces (octree s)))))
    with (3 * length (Octree.faces (octree s)))%nat by lia.
  destruct (repack_writes_ok (edges s) (Octree.faces (octree s)) 0
              (resize (3 * length (Octree.faces (octree s))) 0
                 (Mesh.indices (mesh s)))) as [l' Hl'];
    rewrite ?length_resize; try lia.
  exists l'. split; [done|]. rewrite Hl'. simpl. done.
Qed.

Lemma writeIndices_rewrite (s s' : Impl) :
  freeFirstIndexNumbers s = ∅ → writeIndices s = Some s' →
  ∃ l',
    applyWrites (facesWrites (edges s) (Octree.faces (octree s)))
      (Mesh.indices (mesh s)) = Some l'
    ∧ s' = setOctree (octree s) (setMesh (Mesh.setIndices l' (mesh s)) s).
Proof.
  intros HX. unfold writeIndices.
  rewrite bool_decide_eq_false_2 by (rewrite HX, size_empty; lia).
  unfold Octree.forEachFace. rewrite rewrite_pass.
  destruct (applyWrites _ _) as [l'|]; simpl; [|done].
  intros [= <-]. exists l'. split; [done|]. by destruct (octree s).
Qed.

(** C3.  With a free offset, [writeIndices ()] resizes the index array to
    [numFaces () * 3], gives the faces the offsets 0, 3, 6, ... in the order
    of the traversal and empties the free set; with none, the faces keep
    their offsets and the array its size.  A second [write ()] right after
    the first leaves the index array as the first left it. *)
Theorem writeIndices_repacks_or_rewrites_in_place :
  (∀ (s : Impl),
     freeFirstIndexNumbers s ≠ ∅ →
     3 * Z.of_nat (length (Octree.faces (octree s))) < 2 ^ 32 →
     ∃ s', writeIndices s = Some s'
       ∧ Z.of_nat (length (Mesh.indices (mesh s'))) = numFaces s * 3
       ∧ length (Octree.faces (octree s')) = length (Octree.faces (octree s))
       ∧ (∀ k fg, Octree.faces (octree s') !! k = Some fg →
            f_firstIndexNumber (fg.1) = 3 * Z.of_nat k
            ∧ ∃ f, Octree.faces (octree s) !! k = Some (f, fg.2)
                 ∧ fg.1 = setFirstIndexNumber (3 * Z.of_nat k) f)
       ∧ freeFirstIndexNumbers s' = ∅)
  ∧ (∀ (s s' : Impl),
     freeFirstIndexNumbers s = ∅ → writeIndices s = Some s' →
     octree s' = octree s
     ∧ length (Mesh.indices (mesh s')) = length (Mesh.indices (mesh s))
     ∧ applyWrites (facesWrites (edges s) (Octree.faces (octree s)))
         (Mesh.indices (mesh s)) = Some (Mesh.indices (mesh s'))
     ∧ freeFirstIndexNumbers s' = ∅)
  ∧ (∀ (s : Impl),
     freeFirstIndexNumbers s = ∅ →
     (∀ fg, fg ∈ Octree.faces (octree s) →
        0 ≤ f_firstIndexNumber (fg.1)
        ∧ f_firstIndexNumber (fg.1) + 3 ≤ numIndices s) →
     is_Some (writeIndices s))
  ∧ (∀ (s s1 : Impl),
     write s = Some s1 →
     ∃ s2, write s1 = Some s2
       ∧ Mesh.indices (mesh s2) = Mesh.indices (mesh s1)).
Proof.
  split; [|split; [|split]].
  - intros s HX Hmax. destruct (writeIndices_repack s HX Hmax) as (l' & Hl' & ->).
    destruct (numFaces_small s Hmax) as [-> _].
    eexists. split; [done|]. simpl.
    split. { rewrite (applyWrites_length _ _ _ Hl'), length_resize. lia. }
    split; [apply length_renumber|]. split; [|done].
    intros k fg Hk. apply renumber_lookup in Hk; [|lia|lia].
    by replace (0 + 3 * Z.of_nat k) with (3 * Z.of_nat k) in Hk by lia.
  - intros s s' HX Hw.
    destruct (writeIndices_rewrite s s' HX Hw) as (l' & Hl' & ->). simpl.
    split; [done|]. split; [by eapply applyWrites_length|]. done.
  - intros s HX Hall.
    destruct (rewrite_writes_ok (edges s) (Octree.faces (octree s))
                (numIndices s) (Mesh.indices (mesh s))) as [l' Hl'].
    + unfold numIndices, Mesh.numIndices, u32.
      apply Z.mod_le; lia.
    + apply u32_range.
    + done.
    + unfold writeIndices.
      rewrite bool_decide_eq_false_2 by (rewrite HX, size_empty; lia).
      unfold Octree.forEachFace. rewrite rewrite_pass, Hl'. simpl. eauto.
  - intros s s1. unfold write.
    destruct (writeIndices s) as [sA|] eqn:HwA; simpl; [|done].
    unfold writeNormals.
    destruct (writeNormalsList (edges sA) (vertices sA) (mesh sA))
      as [mB|] eqn:HnA; simpl; [|done].
    intros [= <-].
    destruct (writeIndices_Some s sA HwA) as (HX & Hes & Hvs & _ & l0 & Hl0).
    destruct (writeNormalsList_Some _ _ _ _ HnA) as (Hi & Hlen & Hall).
    assert (writeIndices (setMesh mB sA) = Some (setMesh mB sA)) as ->.
    { unfold writeIndices. simpl.
      rewrite bool_decide_eq_false_2 by (rewrite HX, size_empty; lia).
      unfold Octree.forEachFace. rewrite rewrite_pass. rewrite Hi, Hes.
      rewrite (applyWrites_idem _ _ _ Hl0). simpl.
      rewrite <- Hi, setIndices_indices. unfold setOctree, setMesh; simpl.
      by destruct (octree sA). }
    simpl.
    destruct (writeNormalsList_ok (edges sA) (vertices sA) mB) as [mC HnB].
    { eapply Forall_impl; [exact Hall|]. intros w Hw. simpl. rewrite <- Hw.
      by apply inRange_length. }
    rewrite HnB. simpl. eexists. split; [done|]. simpl.
    by destruct (writeNormalsList_Some _ _ _ _ HnB) as (-> & _).
Qed.

(** C4.  [bufferData ()] trips its assertion exactly when the free set is
    not empty, and with an empty free set it uploads; [write ()] always
    leaves the free set empty, so [writeAndBuffer ()], once [write ()] has
    returned, gets past the assertion of [bufferData ()]. *)
Theorem bufferData_requires_no_free_offset :
  (∀ (s : Impl), freeFirstIndexNumbers s ≠ ∅ → bufferData s = None)
  ∧ (∀ (s : Impl), freeFirstIndexNumbers s = ∅ →
       bufferData s = Some (setMesh (Mesh.bufferData (mesh s)) s))
  ∧ (∀ (s s1 : Impl), write s = Some s1 →
       freeFirstIndexNumbers s1 = ∅
       ∧ writeAndBuffer s = Some (setMesh (Mesh.bufferData (mesh s1)) s1)).
Proof.
  split; [|split].
  - intros s HX. unfold bufferData. rewrite bool_decide_eq_false_2; [done|].
    apply size_pos_nonempty in HX. lia.
  - intros s HX. unfold bufferData. by rewrite HX, size_empty.
  - intros s s1 Hw. unfold writeAndBuffer. rewrite Hw. simpl.
    assert (freeFirstIndexNumbers s1 = ∅) as HX.
    { unfold write in Hw.
      destruct (writeIndices s) as [sA|] eqn:HwA; simpl in Hw; [|done].
      unfold writeNormals in Hw.
      destruct (writeNormalsList _ _ _) as [mB|]; simpl in Hw; [|done].
      simplify_eq. simpl. by apply writeIndices_Some in HwA as [? _]. }
    split; [done|]. unfold bufferData. by rewrite HX, size_empty.
Qed.
End writePipeline.

(** ** Ray queries *)

Section rays.
Context `{Geometry}.

Lemma isIntersection_update (d : Float) (p : Vec3) (m f : Id)
    (i : WingedFaceIntersection) :
  isIntersection (updateIntersection d p m f i) = true.
Proof.
  destruct i as [h|]; simpl; [|done]. by destruct (float_lt d (hit_distance h)).
Qed.

Lemma testFace_miss (mesh : Id) (ray : Ray)
    (acc : bool * WingedFaceIntersection) (l : list (WingedFace * Triangle)) :
  (∀ fg, fg ∈ l → rayTriangle ray (fg.2) = None) →
  foldl (Octree.testFace mesh ray) acc l = acc.
Proof.
  revert acc. induction l as [|fg l IH]; intros acc Hall; simpl; [done|].
  unfold Octree.testFace at 2. rewrite (Hall fg) by set_solver.
  apply IH. intros fg' Hfg'. apply Hall. set_solver.
Qed.

Lemma testFace_fold (mesh : Id) (ray : Ray)
    (acc : bool * WingedFaceIntersection) (l : list (WingedFace * Triangle)) :
  let r := foldl (Octree.testFace mesh ray) acc l in
  (r.1 = true ↔ acc.1 = true ∨ ∃ fg, fg ∈ l ∧ is_Some (rayTriangle ray (fg.2)))
  ∧ (isIntersection (r.2) = true ↔
       isIntersection (acc.2) = true
       ∨ ∃ fg, fg ∈ l ∧ is_Some (rayTriangle ray (fg.2))).
Proof.
  revert acc. induction l as [|fg l IH]; intros acc; simpl.
  - split; (split; [by left|]); by intros [?|(fg & []%elem_of_nil & _)].
  - destruct (IH (Octree.testFace mesh ray acc fg)) as [IH1 IH2].
    rewrite IH1, IH2. clear IH IH1 IH2. unfold Octree.testFace.
    destruct (rayTriangle ray (fg.2)) as [[d p]|] eqn:Hhit; simpl.
    + rewrite isIntersection_update.
      split; (split; [intros _; right; exists fg; split;
                        [set_solver|by rewrite Hhit]|by left]).
    + split; (split; intros [Ha|(fg' & Hfg' & Hs)]; [by left| |by left|]).
      * right. exists fg'. split; [set_solver|done].
      * apply elem_of_cons in Hfg' as [->|Hfg'].
        -- rewrite Hhit in Hs. by destruct Hs.
        -- right. by exists fg'.
      * right. exists fg'. split; [set_solver|done].
      * apply elem_of_cons in Hfg' as [->|Hfg'].
        -- rewrite Hhit in Hs. by destruct Hs.
        -- right. by exists fg'.
Qed.

(** One mesh: the result is true exactly when a face is hit; without a hit
    the output is not touched. *)
Lemma mesh_intersects_spec (ray : Ray) (i : WingedFaceIntersection)
    (m : WingedMesh.Impl) :
  ((WingedMesh.intersects ray i m).1 = true ↔ meshHit ray m)
  ∧ (isIntersection ((WingedMesh.intersects ray i m).2) = true ↔
       isIntersection i = true ∨ meshHit ray m)
  ∧ (¬ meshHit ray m → WingedMesh.intersects ray i m = (false, i)).
Proof.
  unfold WingedMesh.intersects, Octree.intersects, meshHit.
  destruct (testFace_fold (WingedMesh.meshId m) ray (false, i)
              (Octree.faces (WingedMesh.octree m))) as [H1 H2].
  simpl in H1, H2. split; [|split].
  - rewrite H1. split; [by intros [?|?]|by right].
  - done.
  - intros Hno. apply testFace_miss. intros fg Hfg.
    destruct (rayTriangle ray (fg.2)) eqn:Hhit; [|done].
    destruct Hno. exists fg. split; [done|]. by rewrite Hhit.
Qed.

Lemma meshes_fold (ray : Ray) (i : WingedFaceIntersection)
    (ms : list WingedMesh.Impl) :
  let i' := foldl (λ acc m, (WingedMesh.intersects ray acc m).2) i ms in
  (isIntersection i' = true ↔
     isIntersection i = true ∨ ∃ m, m ∈ ms ∧ meshHit ray m)
  ∧ ((∀ m, m ∈ ms → ¬ meshHit ray m) → i' = i).
Proof.
  revert i. induction ms as [|m ms IH]; intros i; simpl.
  - split; [|done]. split; [by left|].
    by intros [?|(m & []%elem_of_nil & _)].
  - destruct (IH ((WingedMesh.intersects ray i m).2)) as [IH1 IH2].
    destruct (mesh_intersects_spec ray i m) as (_ & Hm2 & Hm3).
    split.
    + rewrite IH1, Hm2. split.
      * intros [[?|?]|(m' & Hm' & Hhit)]; [by left| |].
        -- right. exists m. split; [set_solver|done].
        -- right. exists m'. split; [set_solver|done].
      * intros [?|(m' & Hm' & Hhit)]; [by left; left|].
        apply elem_of_cons in Hm' as [->|Hm']; [by left; right|].
        right. by exists m'.
    + intros Hno. rewrite IH2.
      * rewrite Hm3; [done|]. apply Hno. set_solver.
      * intros m' Hm'. apply Hno. set_solver.
Qed.

(** C7, as the code has it.  The scene's query returns the flag of the
    output parameter after the loop: true exactly when the parameter held
    an intersection on entry or the mode is [Freeform] and a face of a
    stored mesh is hit.  On a parameter holding none it is true exactly when
    a face is hit.  Without a hit the parameter is not touched.  A single
    mesh returns true exactly when one of its faces is hit.  The query
    returns no state: it cannot fail or change a mesh. *)
Theorem scene_intersects_reads_output_flag :
  (∀ (S : Scene.Impl) t ray i,
     (Scene.intersectsMode t ray i S).1 = true ↔
       isIntersection i = true
       ∨ (t = Freeform
          ∧ ∃ m, m ∈ Scene.wingedMeshes S ∧ meshHit ray m))
  ∧ (∀ (S : Scene.Impl) t ray,
     (Scene.intersectsMode t ray None S).1 = true ↔
       t = Freeform ∧ ∃ m, m ∈ Scene.wingedMeshes S ∧ meshHit ray m)
  ∧ (∀ (S : Scene.Impl) t ray i,
     ¬ (t = Freeform ∧ ∃ m, m ∈ Scene.wingedMeshes S ∧ meshHit ray m) →
     Scene.intersectsMode t ray i S = (isIntersection i, i))
  ∧ (∀ (m : WingedMesh.Impl) ray i,
     ((WingedMesh.intersects ray i m).1 = true ↔ meshHit ray m)
     ∧ (¬ meshHit ray m → WingedMesh.intersects ray i m = (false, i))).
Proof.
  assert (∀ (S : Scene.Impl) t ray i,
     (Scene.intersectsMode t ray i S).1 = true ↔
       isIntersection i = true
       ∨ (t = Freeform
          ∧ ∃ m, m ∈ Scene.wingedMeshes S ∧ meshHit ray m)) as Hflag.
  { intros S t ray i. unfold Scene.intersectsMode. destruct t; simpl.
    - destruct (meshes_fold ray i (Scene.wingedMeshes S)) as [-> _].
      split; intros [?|?]; [by left|by right|by left|right; tauto].
    - split; [by left|]. by intros [?|[? _]]. }
  split; [done|]. split; [|split].
  - intros S t ray. rewrite Hflag. simpl.
    split; [by intros [?|?]|intros ?; by right].
  - intros S t ray i Hno. unfold Scene.intersectsMode. destruct t; [|done].
    destruct (meshes_fold ray i (Scene.wingedMeshes S)) as [_ Hsame].
    simpl in *. rewrite Hsame; [done|].
    intros m Hm Hhit. apply Hno. split; [done|]. by exists m.
  - intros m ray i. destruct (mesh_intersects_spec ray i m) as (? & _ & ?).
    done.
Qed.
End rays.

(** Counterexample to C7 as stated: on an output parameter that already holds an
    intersection the query of a scene without meshes returns true, although
    no face is hit. *)
Lemma scene_intersects_true_without_hit :
  (@Scene.intersects exampleGeometry 0 exampleHit exampleScene).1 = true
  ∧ ¬ ∃ m, m ∈ Scene.wingedMeshes exampleScene
         ∧ @meshHit exampleGeometry 0 m.
Proof.
  split; [reflexivity|]. intros (m & Hm & _). simpl in Hm.
  by apply elem_of_nil in Hm.
Qed.

(** ** The theorems at the example meshes *)

Lemma exampleDirty_has_free :
  WingedMesh.freeFirstIndexNumbers exampleDirty ≠ ∅.
Proof. apply (non_empty_singleton_L (C := gset Z) 3). Defined.

Lemma exampleHole_has_free :
  WingedMesh.freeFirstIndexNumbers exampleHole ≠ ∅.
Proof. apply (non_empty_singleton_L (C := gset Z) 0). Defined.

(** Slot reuse at [exampleDirty], growth at [exampleClean], and three faces
    with the middle one deleted. *)
Lemma addFace_reuses_least_free_offset_witness :
  (WingedMesh.freeFirstIndexNumbers exampleDirty ≠ ∅
   ∧ ∃ m f' s',
       WingedMesh.addFace (exampleFace 7) (exampleTriangle 7 1) exampleDirty
         = Some (f', s')
       ∧ m ∈ WingedMesh.freeFirstIndexNumbers exampleDirty
       ∧ f_firstIndexNumber f' = m
       ∧ WingedMesh.mesh s' = WingedMesh.mesh exampleDirty)
  ∧ (WingedMesh.freeFirstIndexNumbers exampleClean = ∅
     ∧ ∃ f' s',
         WingedMesh.addFace (exampleFace 7) (exampleTriangle 7 1) exampleClean
           = Some (f', s')
         ∧ f_firstIndexNumber f' = WingedMesh.numIndices exampleClean)
  ∧ ((1 < 3 - 1)%nat ∧ 3 * Z.of_nat 3 < 2 ^ 32
     ∧ ∃ sN f' s',
         WingedMesh.addFaces
           (λ j, (exampleFace (Z.of_nat j), exampleTriangle (Z.of_nat j) 1))
           3 (WingedMesh.new 0) = Some sN
         ∧ WingedMesh.addFace (exampleFace 7) (exampleTriangle 7 1)
             (WingedMesh.deleteFace (mkFace None 1 None 3) sN) = Some (f', s')
         ∧ WingedMesh.numIndices s' = 3 * Z.of_nat 3).
Proof.
  destruct (@addFace_reuses_least_free_offset exampleGeometry)
    as (Hreuse & Hgrow & Hmany).
  split; [|split].
  - split; [exact exampleDirty_has_free|].
    destruct (Hreuse exampleDirty (exampleFace 7) (exampleTriangle 7 1)
                exampleDirty_has_free)
      as (m & f' & s' & Hadd & Hin & _ & Hf & _ & Hmesh).
    by exists m, f', s'.
  - split; [reflexivity|].
    destruct (Hgrow exampleClean (exampleFace 7) (exampleTriangle 7 1)
                eq_refl) as (f' & s' & Hadd & Hf & _).
    by exists f', s'.
  - split; [lia|]. split; [lia|].
    destruct (Hmany
                (λ j, (exampleFace (Z.of_nat j), exampleTriangle (Z.of_nat j) 1))
                3%nat 1%nat 0 (exampleFace 7) (exampleTriangle 7 1))
      as (sN & fk & gk & f' & s' & HsN & _ & Hk & _ & Hadd & _ & Hnum);
      [lia|lia|].
    exists sN, f', s'. split; [done|]. split; [|done].
    vm_compute in HsN. injection HsN as <-. vm_compute in Hk.
    injection Hk as <- _. exact Hadd.
Defined.

(** Trailing and inner deletion at [exampleDirty]; the free offsets along
    [exampleOps]. *)
Lemma deleteFace_shrinks_or_frees_witness :
  (f_firstIndexNumber exampleTrailing
     = u32 (WingedMesh.numIndices exampleDirty - 3)
   ∧ (length (Mesh.indices (WingedMesh.mesh
         (WingedMesh.deleteFace exampleTrailing exampleDirty))) + 3)%nat
     = length (Mesh.indices (WingedMesh.mesh exampleDirty)))
  ∧ (f_firstIndexNumber (exampleFace 0)
       ≠ u32 (WingedMesh.numIndices exampleDirty - 3)
     ∧ WingedMesh.numIndices (WingedMesh.deleteFace (exampleFace 0) exampleDirty)
       = WingedMesh.numIndices exampleDirty)
  ∧ ∃ s, WingedMesh.runFaceOps exampleOps (WingedMesh.new 0) = Some s
       ∧ ∀ x, x ∈ WingedMesh.freeFirstIndexNumbers s →
           x mod 3 = 0 ∧ 0 ≤ x ≤ WingedMesh.numIndices s - 3.
Proof.
  destruct (@deleteFace_shrinks_or_frees exampleGeometry)
    as (Htrail & Hinner & Hrun).
  split; [|split].
  - split; [reflexivity|].
    apply (Htrail exampleDirty exampleTrailing); [reflexivity|].
    simpl. lia.
  - assert (f_firstIndexNumber (exampleFace 0)
              ≠ u32 (WingedMesh.numIndices exampleDirty - 3)) as Hne
      by (vm_compute; discriminate).
    split; [exact Hne|]. apply (Hinner exampleDirty (exampleFace 0) Hne).
  - eexists. split; [vm_compute; reflexivity|].
    intros x Hx.
    destruct (Hrun exampleOps 0 _ ltac:(vm_compute; reflexivity) x Hx)
      as (? & ? & _).
    done.
Defined.

(** The round trip at [exampleHole]: the least free offset is 0, not the
    last triple. *)
Lemma addFace_deleteFace_round_trip_witness :
  set_begin (WingedMesh.freeFirstIndexNumbers exampleHole)
    ≠ Some (u32 (WingedMesh.numIndices exampleHole - 3))
  ∧ ∃ f' s',
      WingedMesh.addFace (exampleFace 7) (exampleTriangle 7 1) exampleHole
        = Some (f', s')
      ∧ WingedMesh.numFaces (WingedMesh.deleteFace f' s')
        = WingedMesh.numFaces exampleHole
      ∧ WingedMesh.numIndices (WingedMesh.deleteFace f' s')
        = WingedMesh.numIndices exampleHole
      ∧ WingedMesh.freeFirstIndexNumbers (WingedMesh.deleteFace f' s')
        = WingedMesh.freeFirstIndexNumbers exampleHole.
Proof.
  assert (set_begin (WingedMesh.freeFirstIndexNumbers exampleHole)
            ≠ Some (u32 (WingedMesh.numIndices exampleHole - 3))) as Hne
    by (vm_compute; discriminate).
  split; [exact Hne|].
  apply (proj2 (@addFace_deleteFace_round_trip exampleGeometry)
           exampleHole (exampleFace 7) (exampleTriangle 7 1) Hne).
Defined.

(** The repack at [exampleDirty], the in-place pass at [exampleClean]. *)
Lemma writeIndices_repacks_or_rewrites_in_place_witness :
  (∃ s', WingedMesh.writeIndices exampleDirty = Some s'
       ∧ Z.of_nat (length (Mesh.indices (WingedMesh.mesh s')))
         = WingedMesh.numFaces exampleDirty * 3
       ∧ WingedMesh.freeFirstIndexNumbers s' = ∅)
  ∧ (∃ s', WingedMesh.writeIndices exampleClean = Some s'
         ∧ WingedMesh.octree s' = WingedMesh.octree exampleClean
         ∧ length (Mesh.indices (WingedMesh.mesh s'))
           = length (Mesh.indices (WingedMesh.mesh exampleClean)))
  ∧ is_Some (WingedMesh.writeIndices exampleClean)
  ∧ ∃ s1 s2, WingedMesh.write exampleDirty = Some s1
       ∧ WingedMesh.write s1 = Some s2
       ∧ Mesh.indices (WingedMesh.mesh s2) = Mesh.indices (WingedMesh.mesh s1).
Proof.
  destruct (@writeIndices_repacks_or_rewrites_in_place exampleGeometry)
    as (Hrepack & Hrewrite & Hok & Htwice).
  split; [|split; [|split]].
  - destruct (Hrepack exampleDirty exampleDirty_has_free)
      as (s' & Hw & Hlen & _ & _ & HX); [simpl; lia|].
    by exists s'.
  - eexists. split; [vm_compute; reflexivity|].
    match goal with
    | |- WingedMesh.octree ?s' = _ ∧ _ =>
        destruct (Hrewrite exampleClean s' eq_refl
                    ltac:(vm_compute; reflexivity)) as (Ho & Hl & _)
    end.
    by split.
  - apply (Hok exampleClean eq_refl). intros fg Hfg.
    apply list_elem_of_singleton in Hfg as ->. by vm_compute.
  - eexists. 
    match goal with
    | |- ∃ s2, WingedMesh.write exampleDirty = Some ?s1 ∧ _ =>
        assert (WingedMesh.write exampleDirty = Some s1) as Hw
          by (vm_compute; reflexivity);
        destruct (Htwice exampleDirty s1 Hw) as (s2 & Hw2 & Hi)
    end.
    by exists s2.
Defined.

(** The upload refused at [exampleDirty] and done at [exampleClean]. *)
Lemma bufferData_requires_no_free_offset_witness :
  WingedMesh.bufferData exampleDirty = None
  ∧ is_Some (WingedMesh.bufferData exampleClean)
  ∧ ∃ s1, WingedMesh.write exampleDirty = Some s1
        ∧ WingedMesh.freeFirstIndexNumbers s1 = ∅
        ∧ is_Some (WingedMesh.writeAndBuffer exampleDirty).
Proof.
  destruct (@bufferData_requires_no_free_offset exampleGeometry)
    as (Hfail & Hpass & Hwrite).
  split; [|split].
  - apply (Hfail exampleDirty exampleDirty_has_free).
  - rewrite (Hpass exampleClean eq_refl). eauto.
  - eexists.
    match goal with
    | |- WingedMesh.write exampleDirty = Some ?s1 ∧ _ =>
        assert (WingedMesh.write exampleDirty = Some s1) as Hw
          by (vm_compute; reflexivity);
        destruct (Hwrite exampleDirty s1 Hw) as (HX & Hwb)
    end.
    split; [done|]. split; [done|]. rewrite Hwb. eauto.
Defined.

(** Parity along [exampleVertexOps]: two vertices added, one popped. *)
Lemma vertex_count_matches_buffer_witness :
  (∃ s s', WingedMesh.runVertexOps (take 2 exampleVertexOps) (WingedMesh.new 0)
             = Some s
         ∧ WingedMesh.popVertex s = Some s'
         ∧ S (length (WingedMesh.vertices s')) = length (WingedMesh.vertices s))
  ∧ ∃ s, WingedMesh.runVertexOps exampleVertexOps (WingedMesh.new 0) = Some s
       ∧ length (WingedMesh.vertices s)
         = length (Mesh.vertices (WingedMesh.mesh s))
       ∧ WingedMesh.numVertices s = Some 1.
Proof.
  destruct (@vertex_count_matches_buffer exampleGeometry)
    as (_ & Hpop & Hpar & _ & Hnum).
  split.
  - eexists _, _. split; [vm_compute; reflexivity|].
    match goal with
    | |- WingedMesh.popVertex ?s = Some ?s' ∧ _ =>
        assert (WingedMesh.popVertex s = Some s') as Hp
          by (vm_compute; reflexivity);
        destruct (Hpop s s' Hp) as [Hv _]
    end.
    by split.
  - eexists. split; [vm_compute; reflexivity|]. split.
    + apply (Hpar exampleVertexOps 0). vm_compute; reflexivity.
    + apply (Hnum exampleVertexOps 0 _ ltac:(vm_compute; reflexivity)).
      by vm_compute.
Defined.

(** Emptiness at [exampleEdgeMesh]: one edge, and the mesh counts as
    empty; a mesh with only a vertex, only a face or only an index does
    not, and [initOctreeRoot] fails on it. *)
Lemma isEmpty_does_not_read_edges_witness :
  (WingedMesh.numEdges exampleEdgeMesh = 1
   ∧ WingedMesh.isEmpty exampleEdgeMesh = Some true
   ∧ ∃ s', @WingedMesh.initOctreeRoot exampleGeometry (0, 0, 0) 8
             exampleEdgeMesh = Some s'
         ∧ WingedMesh.numEdges s' = 1)
  ∧ WingedMesh.isEmpty exampleVertexOnly = Some false
  ∧ WingedMesh.isEmpty exampleFaceOnly = Some false
  ∧ WingedMesh.isEmpty exampleIndexOnly = Some false
  ∧ @WingedMesh.initOctreeRoot exampleGeometry (0, 0, 0) 8 exampleFaceOnly
    = None.
Proof.
  destruct (@isEmpty_does_not_read_edges exampleGeometry)
    as (_ & Hempty & _ & Hfalse & _ & Hinit).
  split; [|split; [|split; [|split]]].
  - destruct (Hempty exampleEdgeMesh ((0, 0, 0) : @Vec3 exampleGeometry)
                (8 : @Float exampleGeometry) eq_refl eq_refl eq_refl eq_refl)
      as (He & s' & Hs' & _ & Hn & _).
    split; [reflexivity|]. split; [exact He|]. exists s'.
    split; [exact Hs'|]. rewrite Hn. reflexivity.
  - apply (proj2 (Hfalse exampleVertexOnly)). exists 1.
    split; [reflexivity|]. left. lia.
  - apply (proj2 (Hfalse exampleFaceOnly)). exists 0.
    split; [reflexivity|]. right; left. vm_compute. discriminate.
  - apply (proj2 (Hfalse exampleIndexOnly)). exists 0.
    split; [reflexivity|]. right; right. vm_compute. discriminate.
  - apply (Hinit exampleFaceOnly ((0, 0, 0) : @Vec3 exampleGeometry)
             (8 : @Float exampleGeometry)).
    rewrite (proj2 (Hfalse exampleFaceOnly)); [discriminate|].
    exists 0. split; [reflexivity|]. right; left. vm_compute. discriminate.
Defined.

(** The ray query at [exampleSphereScene]: nothing is queried in
    [SphereNode] mode, a face is hit in [Freeform] mode; a ray that misses
    [exampleClean]. *)
Lemma scene_intersects_reads_output_flag_witness :
  @Scene.intersectsMode exampleGeometry SphereNode 0 None exampleSphereScene
    = (false, None)
  ∧ (@Scene.intersectsMode exampleGeometry Freeform 0 None
       exampleSphereScene).1 = true
  ∧ @WingedMesh.intersects exampleGeometry 5 exampleHit exampleClean
    = (false, exampleHit).
Proof.
  destruct (@scene_intersects_reads_output_flag exampleGeometry)
    as (_ & Hfresh & Hmiss & Hmesh).
  split; [|split].
  - apply (Hmiss exampleSphereScene SphereNode 0 None).
    intros [Hmode _]. discriminate Hmode.
  - apply (Hfresh exampleSphereScene Freeform 0). split; [reflexivity|].
    exists exampleClean. split; [apply list_elem_of_here|].
    exists (exampleFace 0, exampleTriangle 0 1).
    split; [apply list_elem_of_here|]. vm_compute. eauto.
  - apply (Hmesh exampleClean 5 exampleHit).
    intros (fg & Hfg & Hhit). apply list_elem_of_singleton in Hfg.
    subst fg. vm_compute in Hhit. destruct Hhit as [x Hx]. discriminate Hx.
Defined.

(** * Further properties of the mesh facade *)

(** ** Vertices: round trip and indexing *)

Section vertexStore.
Context `{Geometry}.
Import WingedMesh.

Lemma removelast_snoc {A} (l : list A) (x : A) : removelast (l ++ [x]) = l.
Proof.
  induction l as [|a l IH]; [done|]. simpl.
  destruct (l ++ [x]) as [|b k] eqn:E; [by destruct l|].
  f_equal. exact IH.
Qed.

Lemma snoc_not_nil {A} (l : list A) (x : A) : l ++ [x] ≠ [].
Proof. by destruct l. Qed.

Lemma match_snoc {A B} (l : list A) (x : A) (b c : B) :
  match l ++ [x] with [] => b | _ => c end = c.
Proof. by destruct l. Qed.

(** X1.  [popVertex] right after [addVertex] gives back the mesh as it
    was, whatever the mesh. *)
Theorem addVertex_popVertex_round_trip (s : Impl) (v : Vec3) :
  popVertex ((addVertex v s).2) = Some s.
Proof.
  unfold popVertex, Mesh.popVertex, addVertex, Mesh.addVertex.
  cbn -[removelast]. rewrite match_snoc. cbn -[removelast].
  rewrite match_snoc, !removelast_snoc.
  destruct s as [i m vs es c o X]. by destruct m.
Qed.

Lemma snoc_inv {A} (l : list A) : l ≠ [] → ∃ l' x, l = l' ++ [x].
Proof.
  induction l as [|x l _] using rev_ind; [done|]. intros _. by exists l, x.
Qed.

Lemma verticesOk_new (i : Id) : verticesOk (new i).
Proof. repeat split. intros k v Hk. simpl in Hk. by rewrite lookup_nil in Hk. Qed.

Lemma verticesOk_addVertex (s : Impl) (v : Vec3) :
  verticesOk s → Z.of_nat (length (vertices s)) < 2 ^ 32 →
  verticesOk ((addVertex v s).2).
Proof.
  intros (Hpar & Hnor & Hidx) Hmax. unfold verticesOk; simpl.
  rewrite !length_app; simpl. split; [lia|]. split; [lia|].
  intros k w [[_ Hk]|[-> <-]]%lookup_snoc_Some; [by apply Hidx|]. simpl.
  unfold Mesh.numVertices. rewrite <- Hpar. apply u32_small; lia.
Qed.

Lemma verticesOk_popVertex (s s' : Impl) :
  verticesOk s → popVertex s = Some s' → verticesOk s'.
Proof.
  intros (Hpar & Hnor & Hidx). unfold popVertex, Mesh.popVertex.
  destruct (Mesh.vertices (mesh s)) as [|p ps] eqn:Hp; [done|].
  cbn -[removelast].
  destruct (vertices s) as [|w ws] eqn:Hw; [done|].
  destruct (snoc_inv (p :: ps)) as (ps' & p' & Hps); [done|].
  destruct (snoc_inv (w :: ws)) as (ws' & w' & Hws); [done|].
  destruct (snoc_inv (Mesh.normals (mesh s))) as (ns' & n' & Hns).
  { intros Hn. rewrite Hn in Hnor. done. }
  rewrite Hps, Hws, Hns. rewrite Hws, Hps in Hpar. rewrite Hns, Hps in Hnor.
  rewrite Hws in Hidx. rewrite !length_app in Hpar, Hnor. simpl in Hpar, Hnor.
  intros [= <-]. unfold verticesOk. cbn -[removelast].
  rewrite !removelast_snoc. split; [lia|]. split; [lia|].
  intros k v Hk. apply Hidx. by apply lookup_app_l_Some.
Qed.

(** With the [k]-th record at index [k], the scan for an index is a lookup
    by position. *)
Lemma scan_by_position (l : list WingedVertex) (j0 : nat) (i : Z) :
  (∀ k v, l !! k = Some v → v_index v = Z.of_nat (j0 + k)) →
  Z.of_nat j0 ≤ i →
  scan (λ v, bool_decide (v_index v = i)) l = l !! (Z.to_nat i - j0)%nat.
Proof.
  revert j0. induction l as [|w l IH]; intros j0 Hidx Hi; simpl.
  - by rewrite lookup_nil.
  - pose proof (Hidx 0%nat w eq_refl) as Hw.
    case_bool_decide as Heq.
    + replace (Z.to_nat i - j0)%nat with 0%nat by lia. done.
    + replace (Z.to_nat i - j0)%nat with (S (Z.to_nat i - S j0)) by lia.
      simpl. apply IH; [|lia].
      intros k v Hk. rewrite (Hidx (S k) v Hk). f_equal. lia.
Qed.
End vertexStore.

(** ** Edges: handles *)

Section edgeStore.
Context `{Geometry}.
Import WingedMesh.

Lemma edgesOk_new (i : Id) : edgesOk (new i).
Proof.
  split; simpl; [|apply NoDup_nil_2].
  intros e He. by apply elem_of_nil in He.
Qed.

Lemma edgesOk_addEdge (s : Impl) (e : WingedEdge) :
  edgesOk s → edgesOk ((addEdge e s).2).
Proof.
  intros [Hcells Hnd]. split; simpl.
  - intros e' [He'|He']%elem_of_app.
    + destruct (Hcells e' He') as (c & Hc & Hlt). exists c. split; [done|lia].
    + apply list_elem_of_singleton in He' as ->. simpl. eauto.
  - rewrite fmap_app. apply NoDup_app. split; [done|].
    split; [|apply NoDup_singleton].
    intros x (e' & -> & He')%list_elem_of_fmap Hx.
    apply list_elem_of_singleton in Hx. simpl in Hx.
    destruct (Hcells e' He') as (c & Hc & Hlt). rewrite Hc in Hx.
    injection Hx as ->. lia.
Qed.

Lemma edgesOk_deleteEdge (s : Impl) (e : WingedEdge) :
  edgesOk s → edgesOk (deleteEdge e s).
Proof.
  intros [Hcells Hnd]. split; simpl.
  - intros e' [_ He']%list_elem_of_filter. by apply Hcells.
  - apply (sublist_NoDup _ (e_iterator <$> edges s)); [exact Hnd|].
    apply fmap_sublist, sublist_filter.
Qed.

(** With distinct handles, erasing by handle takes out the one cell. *)
Lemma filter_handle_delete (l : list WingedEdge) (k : nat) (e : WingedEdge) :
  NoDup (e_iterator <$> l) → l !! k = Some e →
  filter (λ x, e_iterator x ≠ e_iterator e) l = delete k l.
Proof.
  revert k. induction l as [|a l IH]; intros k Hnd Hk; [done|].
  rewrite fmap_cons in Hnd. apply NoDup_cons in Hnd as [Hnotin Hnd].
  destruct k as [|k]; simpl in Hk.
  - injection Hk as ->. rewrite filter_cons_False by (intros Hne; by apply Hne).
    simpl. clear IH. induction l as [|b l IH]; [done|].
    rewrite fmap_cons in Hnotin, Hnd.
    apply not_elem_of_cons in Hnotin as [Hne Hnotin].
    apply NoDup_cons in Hnd as [_ Hnd].
    rewrite filter_cons_True by done. f_equal. by apply IH.
  - rewrite filter_cons_True.
    + simpl. f_equal. by apply IH.
    + intros Heq. apply Hnotin. rewrite Heq.
      apply list_elem_of_fmap_2. by eapply list_elem_of_lookup_2.
Qed.
End edgeStore.

(** ** The invariants along mixed edits *)

Section editInvariants.
Context `{Geometry}.
Import WingedMesh.

Lemma slotsFull_new (i : Id) : slotsFull (new i).
Proof. reflexivity. Qed.

Lemma slotsFull_addFace (s s' : Impl) (f f' : WingedFace) (g : Triangle) :
  slotsFull s → addFace f g s = Some (f', s') → slotsFull s'.
Proof.
  unfold slotsFull. intros Hfull Hadd.
  destruct (decide (freeFirstIndexNumbers s = ∅)) as [HX|HX].
  - rewrite (addFace_grow s f g HX) in Hadd. simplify_eq. simpl.
    rewrite !length_app. simpl. lia.
  - destruct (set_begin_is_Some _ HX) as [m Hm].
    rewrite (addFace_reuse s f g m Hm) in Hadd. simplify_eq. simpl.
    apply set_begin_spec in Hm as [Hin _].
    rewrite length_app. simpl.
    rewrite size_difference by set_solver. rewrite size_singleton.
    assert (0 < size (freeFirstIndexNumbers s))%nat
      by by apply size_pos_nonempty.
    lia.
Qed.

Lemma slotsFull_deleteFace (s : Impl) (i : Id) (f : WingedFace) :
  slotsOk s → slotsFull s → face i s = Some f → slotsFull (deleteFace f s).
Proof.
  intros (Hn & Hmod & Hfree & Hfaces & Hfins & Hids) Hfull Hf.
  unfold slotsFull in *.
  apply octree_face_Some in Hf as [_ [g Hin]].
  destruct (removeFace_split _ f g Hids Hin) as (l1 & l2 & Hl & Hrm).
  destruct (Hfaces _ Hin) as (Hf0 & Hf3 & Hfn & Hffree).
  simpl in Hf0, Hf3, Hfn, Hffree.
  rewrite Hl, length_app in Hfull. simpl in Hfull.
  destruct (decide (f_firstIndexNumber f = u32 (numIndices s - 3))) as [Ht|Ht].
  - rewrite (deleteFace_trailing s f Ht). simpl. rewrite Hrm.
    rewrite length_take_le by lia. rewrite length_app. lia.
  - rewrite (deleteFace_inner s f Ht). simpl. rewrite Hrm.
    rewrite size_union by set_solver. rewrite size_singleton, length_app. lia.
Qed.

Lemma faceStep_keeps (s s' : Impl) (op : FaceOp) :
  faceStep s op = Some s' →
  vertices s' = vertices s ∧ edges s' = edges s ∧ edgeCells s' = edgeCells s
  ∧ Mesh.vertices (mesh s') = Mesh.vertices (mesh s)
  ∧ Mesh.normals (mesh s') = Mesh.normals (mesh s).
Proof.
  destruct op as [f g|i]; simpl.
  - destruct (face (f_id f) s); [done|]. case_bool_decide; [|done].
    destruct (decide (freeFirstIndexNumbers s = ∅)) as [HX|HX].
    + rewrite (addFace_grow s f g HX). simpl. by intros [= <-].
    + destruct (set_begin_is_Some _ HX) as [m Hm].
      rewrite (addFace_reuse s f g m Hm). simpl. by intros [= <-].
  - destruct (face i s) as [f|]; simpl; [|done]. intros [= <-].
    unfold deleteFace. by case_bool_decide.
Qed.

Lemma vertexStep_keeps (s s' : Impl) (op : VertexOp) :
  vertexStep s op = Some s' →
  edges s' = edges s ∧ edgeCells s' = edgeCells s ∧ octree s' = octree s
  ∧ freeFirstIndexNumbers s' = freeFirstIndexNumbers s
  ∧ Mesh.indices (mesh s') = Mesh.indices (mesh s).
Proof.
  destruct op as [v|]; simpl.
  - by intros [= <-].
  - unfold popVertex, Mesh.popVertex.
    destruct (Mesh.vertices (mesh s)); [done|]. cbn -[removelast].
    destruct (vertices s); [done|]. by intros [= <-].
Qed.

Lemma edgeStep_keeps (s s' : Impl) (op : EdgeOp) :
  edgeStep s op = Some s' →
  mesh s' = mesh s ∧ vertices s' = vertices s ∧ octree s' = octree s
  ∧ freeFirstIndexNumbers s' = freeFirstIndexNumbers s.
Proof.
  destruct op as [e|k]; simpl.
  - by intros [= <-].
  - destruct (edges s !! k); simpl; [|done]. by intros [= <-].
Qed.

Lemma verticesOk_frame (s s' : Impl) :
  vertices s' = vertices s →
  Mesh.vertices (mesh s') = Mesh.vertices (mesh s) →
  Mesh.normals (mesh s') = Mesh.normals (mesh s) →
  verticesOk s → verticesOk s'.
Proof. unfold verticesOk. by intros -> -> ->. Qed.

Lemma edgesOk_frame (s s' : Impl) :
  edges s' = edges s → edgeCells s' = edgeCells s → edgesOk s → edgesOk s'.
Proof. unfold edgesOk. by intros -> ->. Qed.

Lemma slots_frame (s s' : Impl) :
  octree s' = octree s →
  freeFirstIndexNumbers s' = freeFirstIndexNumbers s →
  Mesh.indices (mesh s') = Mesh.indices (mesh s) →
  slotsOk s ∧ slotsFull s → slotsOk s' ∧ slotsFull s'.
Proof. unfold slotsOk, slotsFull. by intros -> -> ->. Qed.

Lemma meshOk_new (i : Id) : meshOk (new i).
Proof.
  split; [apply verticesOk_new|]. split; [apply edgesOk_new|].
  split; [apply slotsOk_new|apply slotsFull_new].
Qed.

Lemma meshOk_step (s s' : Impl) (op : EditOp) :
  meshOk s → Z.of_nat (length (vertices s)) < 2 ^ 32 →
  editStep s op = Some s' →
  meshOk s' ∧ (length (vertices s') ≤ S (length (vertices s)))%nat.
Proof.
  intros (Hv & He & Hs & Hf) Hmax Hstep. destruct op as [o|o|o]; simpl in Hstep.
  - destruct (vertexStep_keeps _ _ _ Hstep) as (E1 & E2 & E3 & E4 & E5).
    destruct (slots_frame s s' E3 E4 E5 (conj Hs Hf)) as [Hs' Hf'].
    pose proof (edgesOk_frame s s' E1 E2 He) as He'.
    destruct o as [v|]; simpl in Hstep.
    + injection Hstep as <-. split.
      * split; [by apply verticesOk_addVertex|done].
      * simpl. rewrite length_app. simpl. lia.
    + split; [split; [by eapply verticesOk_popVertex|done]|].
      apply popVertex_lengths in Hstep as [? _]. lia.
  - destruct (faceStep_keeps _ _ _ Hstep) as (E1 & E2 & E3 & E4 & E5).
    pose proof (verticesOk_frame s s' E1 E4 E5 Hv) as Hv'.
    pose proof (edgesOk_frame s s' E2 E3 He) as He'.
    split; [|rewrite E1; lia]. split; [done|]. split; [done|].
    destruct o as [f g|i]; simpl in Hstep.
    + destruct (face (f_id f) s) eqn:Hface; [done|].
      case_bool_decide as Hroom; [|done].
      destruct (addFace f g s) as [[f' s2]|] eqn:Hadd; simpl in Hstep;
        simplify_eq.
      split; [by eapply slotsOk_addFace|by eapply slotsFull_addFace].
    + destruct (face i s) as [f|] eqn:Hface; simpl in Hstep; simplify_eq.
      split; [by eapply slotsOk_deleteFace|by eapply slotsFull_deleteFace].
  - destruct (edgeStep_keeps _ _ _ Hstep) as (E1 & E2 & E3 & E4).
    assert (verticesOk s') as Hv' by (apply (verticesOk_frame s); by rewrite ?E1).
    destruct (slots_frame s s' E3 E4 (f_equal Mesh.indices E1) (conj Hs Hf))
      as [Hs' Hf'].
    split; [|rewrite E2; lia]. split; [done|]. split; [|done].
    destruct o as [e|k]; simpl in Hstep.
    + injection Hstep as <-. by apply edgesOk_addEdge.
    + destruct (edges s !! k) as [e|]; simpl in Hstep; simplify_eq.
      by apply edgesOk_deleteEdge.
Qed.

Lemma meshOk_run (ops : list EditOp) (s s' : Impl) :
  meshOk s →
  Z.of_nat (length (vertices s)) + Z.of_nat (length ops) < 2 ^ 32 →
  runEdits ops s = Some s' →
  meshOk s' ∧ Z.of_nat (length (vertices s')) < 2 ^ 32.
Proof.
  revert s. induction ops as [|op ops IH]; simpl; intros s Hok Hmax Hrun.
  - simplify_eq. split; [done|lia].
  - destruct (editStep s op) as [s1|] eqn:Hstep; simpl in Hrun; [|done].
    destruct (meshOk_step s s1 op Hok ltac:(lia) Hstep) as [Hok1 Hlen].
    apply (IH s1); [done|lia|done].
Qed.
End editInvariants.

(** ** Vertices and edges along edits *)

Section stores.
Context `{Geometry}.
Import WingedMesh.

(** X2.  After any sequence of edits on a new mesh, the vertex records are
    indexed by position: [numVertices ()] passes its assertion,
    [vertexSLOW (k)] is the [k]-th record for every [unsigned int] [k], so
    it is null exactly from [numVertices ()] on, and [lastVertex ()] trips
    its assertion exactly on a mesh without vertices and otherwise returns
    the record with the last index, the one [vertexSLOW] finds under that
    index. *)
Theorem vertices_indexed_by_position (ops : list EditOp) (i : Id) (s : Impl) :
  Z.of_nat (length ops) < 2 ^ 32 →
  runEdits ops (new i) = Some s →
  numVertices s = Some (Z.of_nat (length (vertices s)))
  ∧ (∀ k, 0 ≤ k < 2 ^ 32 → vertexSLOW k s = vertices s !! Z.to_nat k)
  ∧ (∀ k, 0 ≤ k < 2 ^ 32 →
       (vertexSLOW k s = None ↔ Z.of_nat (length (vertices s)) ≤ k))
  ∧ (lastVertex s = None ↔ vertices s = [])
  ∧ (vertices s ≠ [] →
     ∃ v, lastVertex s = Some v
        ∧ v_index v = Z.of_nat (length (vertices s)) - 1
        ∧ vertexSLOW (Z.of_nat (length (vertices s)) - 1) s = Some v).
Proof.
  intros Hmax Hrun.
  destruct (meshOk_run ops (new i) s (meshOk_new i) ltac:(simpl; lia) Hrun)
    as [((Hpar & Hnor & Hidx) & _) Hlen].
  assert (∀ k, 0 ≤ k → vertexSLOW k s = vertices s !! Z.to_nat k) as Hscan.
  { intros k Hk. unfold vertexSLOW.
    rewrite (scan_by_position (vertices s) 0 k); [|done|lia].
    f_equal. lia. }
  split; [|split; [|split; [|split]]].
  - unfold numVertices, Mesh.numVertices. rewrite <- Hpar.
    rewrite u32_small by lia. by rewrite bool_decide_eq_true_2.
  - intros k [Hk _]. by apply Hscan.
  - intros k [Hk _]. rewrite (Hscan k Hk), lookup_ge_None. lia.
  - unfold lastVertex. rewrite last_lookup, lookup_ge_None. split.
    + intros Hle. destruct (vertices s); [done|]. simpl in Hle. lia.
    + intros ->. simpl. lia.
  - intros Hne. unfold lastVertex. rewrite last_lookup.
    assert (0 < length (vertices s))%nat as Hpos.
    { destruct (vertices s); [done|]. simpl. lia. }
    destruct (lookup_lt_is_Some_2 (vertices s) (pred (length (vertices s))))
      as [v Hv]; [lia|].
    exists v. split; [done|]. split.
    + rewrite (Hidx _ _ Hv). lia.
    + rewrite Hscan by lia. rewrite <- Hv. f_equal. lia.
Qed.

(** X3.  After any sequence of edits on a new mesh, [deleteEdge] on the
    stored edge at position [k] erases that cell and nothing else: the
    other edges stay, in order, and [numEdges ()] goes down by one. *)
Theorem deleteEdge_erases_one_cell (ops : list EditOp) (i : Id) (s : Impl)
    (k : nat) (e : WingedEdge) :
  Z.of_nat (length ops) < 2 ^ 32 →
  runEdits ops (new i) = Some s →
  edges s !! k = Some e →
  edges (deleteEdge e s) = delete k (edges s)
  ∧ S (length (edges (deleteEdge e s))) = length (edges s).
Proof.
  intros Hmax Hrun Hk.
  destruct (meshOk_run ops (new i) s (meshOk_new i) ltac:(simpl; lia) Hrun)
    as [(_ & [_ Hnd] & _) _].
  assert (edges (deleteEdge e s) = delete k (edges s)) as ->.
  { simpl. by apply filter_handle_delete. }
  split; [done|]. rewrite length_delete by eauto.
  apply lookup_lt_Some in Hk. lia.
Qed.

(** X4.  After any sequence of edits on a new mesh, [deleteEdge] on the
    edge [addEdge] has just returned restores the edge list. *)
Theorem addEdge_deleteEdge_round_trip (ops : list EditOp) (i : Id) (s : Impl)
    (e : WingedEdge) :
  Z.of_nat (length ops) < 2 ^ 32 →
  runEdits ops (new i) = Some s →
  edges (deleteEdge ((addEdge e s).1) ((addEdge e s).2)) = edges s
  ∧ numEdges (deleteEdge ((addEdge e s).1) ((addEdge e s).2)) = numEdges s.
Proof.
  intros Hmax Hrun.
  destruct (meshOk_run ops (new i) s (meshOk_new i) ltac:(simpl; lia) Hrun)
    as [(_ & He & _) _].
  destruct (edgesOk_addEdge s e He) as [_ Hnd].
  assert (edges (deleteEdge ((addEdge e s).1) ((addEdge e s).2)) = edges s)
    as Hes.
  { change (edges (deleteEdge ((addEdge e s).1) ((addEdge e s).2)))
      with (filter (λ x, e_iterator x ≠ e_iterator ((addEdge e s).1))
              (edges ((addEdge e s).2))).
    rewrite (filter_handle_delete _ (length (edges s)) _ Hnd).
    - simpl. rewrite delete_middle. apply app_nil_r.
    - simpl. apply list_lookup_middle. done. }
  split; [done|]. unfold numEdges. by rewrite Hes.
Qed.

Lemma scan_snoc {A} (p : A → bool) (l : list A) (x : A) :
  scan p (l ++ [x]) =
    match scan p l with
    | Some y => Some y
    | None => if p x then Some x else None
    end.
Proof.
  induction l as [|a l IH]; simpl; [done|]. by destruct (p a).
Qed.

(** X5.  [addEdge] does not look at ids: the stored copy keeps the id and
    the other thirteen fields of the prototype, [edgeSLOW] finds it under
    its id if no edge with that id was stored before and still finds the
    older edge otherwise, and lookups of other ids are not affected. *)
Theorem addEdge_then_edgeSLOW (s : Impl) (e : WingedEdge) :
  (addEdge e s).1 =
    mkEdge (e_vertex1 e) (e_vertex2 e) (e_leftFace e) (e_rightFace e)
      (e_leftPredecessor e) (e_leftSuccessor e) (e_rightPredecessor e)
      (e_rightSuccessor e) (e_previousSibling e) (e_nextSibling e) (e_id e)
      (e_isTEdge e) (e_faceGradient e) (e_vertexGradient e)
      (Some (edgeCells s))
  ∧ (edgeSLOW (e_id e) s = None →
     edgeSLOW (e_id e) ((addEdge e s).2) = Some ((addEdge e s).1))
  ∧ (∀ e0, edgeSLOW (e_id e) s = Some e0 →
     edgeSLOW (e_id e) ((addEdge e s).2) = Some e0)
  ∧ (∀ j, j ≠ e_id e → edgeSLOW j ((addEdge e s).2) = edgeSLOW j s).
Proof.
  split; [done|]. unfold edgeSLOW. simpl.
  split; [|split].
  - intros Hnone. rewrite scan_snoc, Hnone. simpl.
    by rewrite bool_decide_eq_true_2.
  - intros e0 Hsome. by rewrite scan_snoc, Hsome.
  - intros j Hj. rewrite scan_snoc. simpl.
    rewrite bool_decide_eq_false_2 by done. by destruct (scan _ (edges s)).
Qed.

(** X6.  [nextFreeFirstIndexNumber] trips its assertion exactly on an empty
    free set; otherwise it returns a free offset, takes just that one out
    and leaves the buffer alone, and the next call returns a strictly
    larger offset. *)
Theorem nextFreeFirstIndexNumber_ascends :
  (∀ (s : Impl),
     nextFreeFirstIndexNumber s = None ↔ freeFirstIndexNumbers s = ∅)
  ∧ (∀ (s s1 : Impl) m,
     nextFreeFirstIndexNumber s = Some (m, s1) →
     m ∈ freeFirstIndexNumbers s
     ∧ freeFirstIndexNumbers s1 = freeFirstIndexNumbers s ∖ {[m]}
     ∧ S (size (freeFirstIndexNumbers s1)) = size (freeFirstIndexNumbers s)
     ∧ mesh s1 = mesh s ∧ octree s1 = octree s
     ∧ ∀ m' s2, nextFreeFirstIndexNumber s1 = Some (m', s2) → m < m').
Proof.
  assert (∀ (s s1 : Impl) m, nextFreeFirstIndexNumber s = Some (m, s1) →
            set_begin (freeFirstIndexNumbers s) = Some m
            ∧ s1 = setFree (freeFirstIndexNumbers s ∖ {[m]}) s) as Hnext.
  { intros s s1 m. unfold nextFreeFirstIndexNumber.
    destruct (hasFreeFirstIndexNumber s); [|done].
    destruct (set_begin (freeFirstIndexNumbers s)) as [x|]; simpl; [|done].
    by intros [= <- <-]. }
  split.
  - intros s. unfold nextFreeFirstIndexNumber. split.
    + destruct (decide (freeFirstIndexNumbers s = ∅)) as [HX|HX]; [done|].
      rewrite (hasFree_true s HX).
      by destruct (set_begin_is_Some _ HX) as [m ->].
    + intros HX. by rewrite (hasFree_false s HX).
  - intros s s1 m [Hm ->]%Hnext.
    destruct (set_begin_spec _ _ Hm) as [Hin Hle]. simpl.
    split; [done|]. split; [done|]. split.
    { rewrite size_difference by set_solver. rewrite size_singleton.
      assert (0 < size (freeFirstIndexNumbers s))%nat
        by (apply size_pos_nonempty; set_solver).
      lia. }
    split; [done|]. split; [done|].
    intros m' s2 [Hm' _]%Hnext. simpl in Hm'.
    apply set_begin_spec in Hm' as [Hin' _].
    apply elem_of_difference in Hin' as [Hin' Hne].
    specialize (Hle m' Hin').
    assert (m' ≠ m) by set_solver. lia.
Qed.
End stores.

(** ** Faces and index triples along edits *)

Section slots.
Context `{Geometry}.
Import WingedMesh.

(** X7.  With no free offset, the face added right after a deletion takes
    over the offset of the deleted face, the trailing one or not, and the
    index buffer has its old length again. *)
Theorem deleteFace_addFace_recycles_offset (s : Impl) (f f0 : WingedFace)
    (g : Triangle) :
  freeFirstIndexNumbers s = ∅ →
  0 ≤ f_firstIndexNumber f →
  f_firstIndexNumber f + 3 ≤ Z.of_nat (length (Mesh.indices (mesh s))) →
  Z.of_nat (length (Mesh.indices (mesh s))) < 2 ^ 32 →
  ∃ f' s', addFace f0 g (deleteFace f s) = Some (f', s')
    ∧ f_firstIndexNumber f' = f_firstIndexNumber f
    ∧ length (Mesh.indices (mesh s')) = length (Mesh.indices (mesh s))
    ∧ freeFirstIndexNumbers s' = ∅.
Proof.
  intros HX Hf0 Hf3 Hmax.
  assert (numIndices s = Z.of_nat (length (Mesh.indices (mesh s)))) as Hnum.
  { unfold numIndices, Mesh.numIndices. apply u32_small. lia. }
  destruct (decide (f_firstIndexNumber f = u32 (numIndices s - 3))) as [Ht|Ht].
  - rewrite (deleteFace_trailing s f Ht).
    rewrite Hnum, u32_small in Ht by lia.
    rewrite addFace_grow by done. eexists _, _. split; [done|]. simpl.
    unfold numIndices, Mesh.numIndices. simpl.
    rewrite length_app, length_take_le by lia. simpl.
    split; [|split; [lia|done]]. rewrite u32_small; lia.
  - rewrite (deleteFace_inner s f Ht).
    assert (set_begin ({[f_firstIndexNumber f]} ∪ freeFirstIndexNumbers s)
            = Some (f_firstIndexNumber f)) as Hb.
    { rewrite HX.
      destruct (set_begin_is_Some ({[f_firstIndexNumber f]} ∪ ∅ : gset Z))
        as [m Hm]; [set_solver|].
      rewrite Hm. f_equal. apply set_begin_spec in Hm as [Hin _].
      set_solver. }
    erewrite addFace_reuse by (simpl; exact Hb).
    eexists _, _. split; [done|]. simpl.
    split; [done|]. split; [done|]. rewrite HX. set_solver.
Qed.

Lemma NoDup_fmap_lookup {A B} (h : A → B) (l : list A) (j k : nat) (a b : A) :
  NoDup (h <$> l) → l !! j = Some a → l !! k = Some b → h a = h b → j = k.
Proof.
  intros Hnd Hj Hk Heq. eapply NoDup_lookup; [exact Hnd| |].
  - rewrite list_lookup_fmap, Hj. done.
  - rewrite list_lookup_fmap, Hk. simpl. by rewrite Heq.
Qed.

Lemma triples_apart (x y : Z) :
  x mod 3 = 0 → y mod 3 = 0 → x ≠ y → x + 3 ≤ y ∨ y + 3 ≤ x.
Proof.
  intros Hx Hy Hne.
  apply Z.mod_divide in Hx as [a ->]; [|lia].
  apply Z.mod_divide in Hy as [b ->]; [|lia]. lia.
Qed.

(** X8.  After any sequence of edits on a new mesh, every stored face owns
    a triple of the index buffer that lies inside the buffer, no two stored
    faces overlap, face ids are unique, and the buffer consists of the
    triples of the faces and the free triples: [numIndices ()] is
    [3 * (numFaces () + number of free offsets)]. *)
Theorem faces_own_disjoint_triples (ops : list EditOp) (i : Id) (s : Impl) :
  Z.of_nat (length ops) < 2 ^ 32 →
  runEdits ops (new i) = Some s →
  (∀ fg, fg ∈ Octree.faces (octree s) →
     0 ≤ f_firstIndexNumber (fg.1)
     ∧ f_firstIndexNumber (fg.1) + 3 ≤ numIndices s
     ∧ f_firstIndexNumber (fg.1) ∉ freeFirstIndexNumbers s)
  ∧ (∀ j k fg1 fg2, j ≠ k →
       Octree.faces (octree s) !! j = Some fg1 →
       Octree.faces (octree s) !! k = Some fg2 →
       f_id (fg1.1) ≠ f_id (fg2.1)
       ∧ (f_firstIndexNumber (fg1.1) + 3 ≤ f_firstIndexNumber (fg2.1)
          ∨ f_firstIndexNumber (fg2.1) + 3 ≤ f_firstIndexNumber (fg1.1)))
  ∧ numIndices s
    = 3 * (numFaces s + Z.of_nat (size (freeFirstIndexNumbers s))).
Proof.
  intros Hmax Hrun.
  destruct (meshOk_run ops (new i) s (meshOk_new i) ltac:(simpl; lia) Hrun)
    as [(_ & _ & (Hn & Hmod & Hfree & Hfaces & Hfins & Hids) & Hfull) _].
  unfold slotsFull in Hfull.
  assert (numIndices s = Z.of_nat (length (Mesh.indices (mesh s)))) as Hnum.
  { unfold numIndices, Mesh.numIndices. apply u32_small. lia. }
  split; [|split].
  - intros fg Hfg. destruct (Hfaces fg Hfg) as (?&?&?&?). rewrite Hnum. done.
  - intros j k fg1 fg2 Hjk Hj Hk. split.
    + intros Heq. apply Hjk.
      by apply (NoDup_fmap_lookup (λ fg : WingedFace * Triangle, f_id (fg.1))
                  (Octree.faces (octree s)) j k fg1 fg2).
    + destruct (Hfaces fg1) as (_ & H1 & _); [by eapply list_elem_of_lookup_2|].
      destruct (Hfaces fg2) as (_ & H2 & _); [by eapply list_elem_of_lookup_2|].
      apply triples_apart; [done|done|]. intros Heq. apply Hjk.
      by apply (NoDup_fmap_lookup
                  (λ fg : WingedFace * Triangle, f_firstIndexNumber (fg.1))
                  (Octree.faces (octree s)) j k fg1 fg2).
  - rewrite Hnum, Hfull. unfold numFaces, Octree.numFaces.
    rewrite u32_small; lia.
Qed.

Lemma face_lookup_stored (l : list (WingedFace * Triangle))
    (r : option (Vec3 * Float)) (fg : WingedFace * Triangle) :
  NoDup ((λ fg, f_id (fg.1)) <$> l) → fg ∈ l →
  Octree.face (f_id (fg.1)) (Octree.Make r l) = Some (fg.1).
Proof.
  unfold Octree.face. simpl.
  induction l as [|a l IH]; intros Hnd Hin; [by apply elem_of_nil in Hin|].
  rewrite fmap_cons in Hnd. apply NoDup_cons in Hnd as [Hnotin Hnd]. simpl.
  case_bool_decide as Hi.
  - simpl. apply elem_of_cons in Hin as [->|Hin]; [done|].
    destruct Hnotin. rewrite Hi.
    by apply (list_elem_of_fmap_2 (λ fg, f_id (fg.1))).
  - apply elem_of_cons in Hin as [->|Hin]; [done|]. by apply IH.
Qed.

Lemma face_lookup_removed (l : list (WingedFace * Triangle))
    (r : option (Vec3 * Float)) (i j : Id) :
  Octree.face j (Octree.Make r (Octree.removeFace i l)) =
    if decide (j = i)
    then Octree.face j (Octree.Make r (Octree.removeFace i l))
    else Octree.face j (Octree.Make r l).
Proof.
  case_decide as Hj; [done|]. unfold Octree.face. simpl.
  induction l as [|a l IH]; [done|]. simpl. case_decide as Ha.
  - rewrite bool_decide_eq_false_2; [done|]. by rewrite Ha.
  - simpl. case_bool_decide; [done|]. apply IH.
Qed.

(** After any sequence of edits on a new mesh, [face (id)] returns
    each stored face under its own id; after [deleteFace] on a stored face
    its id is no longer found and every other id is found as before. *)
Theorem face_lookup_follows_edits (ops : list EditOp) (i : Id) (s : Impl) :
  Z.of_nat (length ops) < 2 ^ 32 →
  runEdits ops (new i) = Some s →
  (∀ fg, fg ∈ Octree.faces (octree s) → face (f_id (fg.1)) s = Some (fg.1))
  ∧ (∀ fg, fg ∈ Octree.faces (octree s) →
       face (f_id (fg.1)) (deleteFace (fg.1) s) = None
       ∧ ∀ j, j ≠ f_id (fg.1) → face j (deleteFace (fg.1) s) = face j s).
Proof.
  intros Hmax Hrun.
  destruct (meshOk_run ops (new i) s (meshOk_new i) ltac:(simpl; lia) Hrun)
    as [(_ & _ & (_ & _ & _ & _ & _ & Hids) & _) _].
  split.
  - intros fg Hfg. unfold face. destruct (octree s) as [r l].
    by apply face_lookup_stored.
  - intros [f g] Hfg. unfold face. rewrite octree_deleteFace.
    unfold Octree.deleteFace. simpl.
    destruct (removeFace_split _ f g Hids Hfg) as (l1 & l2 & Hl & Hrm).
    split.
    + rewrite Hrm. apply octree_face_None. simpl.
      rewrite Hl in Hids. apply NoDup_fmap_middle in Hids as [_ Hne].
      intros fg' Hfg'. by apply (Hne fg').
    + intros j Hj. rewrite face_lookup_removed. rewrite decide_False by done.
      by destruct (octree s).
Qed.
End slots.

(** ** [write] after edits *)

Section writeAfterEdits.
Context `{Geometry}.
Import WingedMesh.

Lemma faceWrites_plain (es : list WingedEdge) (f : WingedFace) :
  0 ≤ f_firstIndexNumber f → f_firstIndexNumber f + 3 ≤ 2 ^ 32 →
  faceWrites es f =
    let '(a, b, c) := faceVertexIndices es (f_edge f) (f_id f) in
    [(f_firstIndexNumber f, a); (f_firstIndexNumber f + 1, b);
     (f_firstIndexNumber f + 2, c)].
Proof.
  intros H0 H3. unfold faceWrites.
  destruct (faceVertexIndices es (f_edge f) (f_id f)) as [[a b] c].
  by rewrite !u32_small by lia.
Qed.

Lemma faceWrites_slots (es : list WingedEdge) (f : WingedFace) :
  0 ≤ f_firstIndexNumber f → f_firstIndexNumber f + 3 ≤ 2 ^ 32 →
  (faceWrites es f).*1 =
    [f_firstIndexNumber f; f_firstIndexNumber f + 1; f_firstIndexNumber f + 2].
Proof.
  intros H0 H3. rewrite faceWrites_plain by done.
  by destruct (faceVertexIndices es (f_edge f) (f_id f)) as [[a b] c].
Qed.

Lemma facesWrites_slot (es : list WingedEdge)
    (l : list (WingedFace * Triangle)) (N x : Z) :
  N ≤ 2 ^ 32 →
  (∀ fg, fg ∈ l → 0 ≤ f_firstIndexNumber (fg.1)
                  ∧ f_firstIndexNumber (fg.1) + 3 ≤ N) →
  x ∈ (facesWrites es l).*1 →
  ∃ fg, fg ∈ l ∧ f_firstIndexNumber (fg.1) ≤ x < f_firstIndexNumber (fg.1) + 3.
Proof.
  intros HN. induction l as [|fg l IH]; intros Hall Hx.
  - by apply elem_of_nil in Hx.
  - unfold facesWrites in *. simpl in Hx. rewrite fmap_app in Hx.
    destruct (Hall fg) as [H0 H3]; [set_solver|].
    apply elem_of_app in Hx as [Hx|Hx].
    + rewrite faceWrites_slots in Hx by lia. exists fg.
      split; [set_solver|]. set_unfold. lia.
    + destruct IH as (fg' & Hfg' & Hr); [|done|].
      * intros fg' Hfg'. apply Hall. set_solver.
      * exists fg'. split; [set_solver|done].
Qed.

Lemma facesWrites_NoDup (es : list WingedEdge)
    (l : list (WingedFace * Triangle)) (N : Z) :
  N ≤ 2 ^ 32 →
  (∀ fg, fg ∈ l → 0 ≤ f_firstIndexNumber (fg.1)
                  ∧ f_firstIndexNumber (fg.1) mod 3 = 0
                  ∧ f_firstIndexNumber (fg.1) + 3 ≤ N) →
  NoDup ((λ fg, f_firstIndexNumber (fg.1)) <$> l) →
  NoDup ((facesWrites es l).*1).
Proof.
  intros HN. induction l as [|fg l IH]; intros Hall Hnd.
  - apply NoDup_nil_2.
  - rewrite fmap_cons in Hnd. apply NoDup_cons in Hnd as [Hnotin Hnd].
    destruct (Hall fg) as (H0 & Hm & H3); [set_solver|].
    assert (∀ fg', fg' ∈ l → 0 ≤ f_firstIndexNumber (fg'.1)
              ∧ f_firstIndexNumber (fg'.1) mod 3 = 0
              ∧ f_firstIndexNumber (fg'.1) + 3 ≤ N) as Hall'.
    { intros fg' Hfg'. apply Hall. set_solver. }
    change (facesWrites es (fg :: l))
      with (faceWrites es (fg.1) ++ facesWrites es l).
    rewrite fmap_app. apply NoDup_app. split; [|split; [|by apply IH]].
    + rewrite faceWrites_slots by lia.
      repeat (apply NoDup_cons; split; [set_unfold; lia|]). apply NoDup_nil_2.
    + intros x Hx Hx'. rewrite faceWrites_slots in Hx by lia.
      destruct (facesWrites_slot es l N x HN) as (fg' & Hfg' & Hr);
        [|done|].
      { intros fg' Hfg'. destruct (Hall' fg' Hfg') as (?&?&?). done. }
      destruct (Hall' fg' Hfg') as (_ & Hm' & _).
      assert (f_firstIndexNumber (fg.1) ≠ f_firstIndexNumber (fg'.1)) as Hne.
      { intros Heq. apply Hnotin. rewrite Heq.
        by apply (list_elem_of_fmap_2
                    (λ fg : WingedFace * Triangle, f_firstIndexNumber (fg.1))). }
      destruct (triples_apart _ _ Hm Hm' Hne); set_unfold; lia.
Qed.

(** With distinct slots, every assignment of a pass is there at the end. *)
Lemma applyWrites_lookup (w : list (Z * Z)) (l l' : list Z) (i v : Z) :
  applyWrites w l = Some l' → NoDup (w.*1) → (i, v) ∈ w →
  l' !! Z.to_nat i = Some v.
Proof.
  revert l. induction w as [|[j u] w IH]; intros l Hw Hnd Hin.
  - by apply elem_of_nil in Hin.
  - simpl in Hw, Hnd. apply NoDup_cons in Hnd as [Hnotin Hnd].
    destruct (Mesh.inRange j l) eqn:Hr; [|done].
    apply inRange_spec in Hr.
    apply elem_of_cons in Hin as [[= -> ->]|Hin]; [|by eapply IH].
    rewrite (applyWrites_outside _ _ _ (Z.to_nat j) Hw).
    + apply list_lookup_insert_eq. lia.
    + by rewrite Z2Nat.id by lia.
Qed.

Lemma renumber_ids (fin : Z) (l : list (WingedFace * Triangle)) :
  (λ fg, f_id (fg.1)) <$> renumber fin l = (λ fg, f_id (fg.1)) <$> l.
Proof.
  revert fin. induction l as [|[f g] l IH]; intros fin; simpl; [done|].
  by rewrite IH.
Qed.

(** [writeIndices] on a mesh whose slots are in order succeeds and leaves
    the slots in order, with no free offset. *)
Lemma writeIndices_ok (s : Impl) :
  slotsOk s → slotsFull s →
  ∃ s', writeIndices s = Some s'
    ∧ slotsOk s' ∧ slotsFull s' ∧ freeFirstIndexNumbers s' = ∅
    ∧ vertices s' = vertices s ∧ edges s' = edges s
    ∧ edgeCells s' = edgeCells s
    ∧ Mesh.vertices (mesh s') = Mesh.vertices (mesh s)
    ∧ Mesh.normals (mesh s') = Mesh.normals (mesh s)
    ∧ (λ fg, f_id (fg.1)) <$> Octree.faces (octree s')
      = (λ fg, f_id (fg.1)) <$> Octree.faces (octree s)
    ∧ ∃ l0, applyWrites (facesWrites (edges s) (Octree.faces (octree s'))) l0
            = Some (Mesh.indices (mesh s')).
Proof.
  intros (Hn & Hmod & Hfree & Hfaces & Hfins & Hids) Hfull.
  unfold slotsFull in Hfull.
  destruct (decide (freeFirstIndexNumbers s = ∅)) as [HX|HX].
  - destruct (rewrite_writes_ok (edges s) (Octree.faces (octree s))
                (Z.of_nat (length (Mesh.indices (mesh s))))
                (Mesh.indices (mesh s))) as [l' Hl']; [lia|lia| |].
    { intros fg Hfg. destruct (Hfaces fg Hfg) as (?&?&?&?). done. }
    pose proof (applyWrites_length _ _ _ Hl') as Hlen.
    exists (setOctree (octree s) (setMesh (Mesh.setIndices l' (mesh s)) s)).
    split.
    { unfold writeIndices.
      rewrite bool_decide_eq_false_2 by (rewrite HX, size_empty; lia).
      unfold Octree.forEachFace. rewrite rewrite_pass, Hl'. simpl.
      by destruct (octree s). }
    unfold slotsOk, slotsFull. simpl. rewrite Hlen.
    split; [exact (conj Hn (conj Hmod (conj Hfree
                     (conj Hfaces (conj Hfins Hids)))))|].
    split; [exact Hfull|]. do 7 (split; [done|]). by eexists.
  - assert (3 * Z.of_nat (length (Octree.faces (octree s))) < 2 ^ 32) as Hmax
      by lia.
    destruct (writeIndices_repack s HX Hmax) as (l' & Hl' & Hw).
    pose proof (applyWrites_length _ _ _ Hl') as Hlen.
    rewrite length_resize in Hlen.
    eexists. split; [exact Hw|]. unfold slotsOk, slotsFull.
    cbn [mesh octree freeFirstIndexNumbers vertices edges edgeCells
         Mesh.indices Mesh.setIndices Mesh.vertices Mesh.normals
         Octree.faces].
    rewrite Hlen, length_renumber, renumber_ids, size_empty.
    assert (∀ k fg, renumber 0 (Octree.faces (octree s)) !! k = Some fg →
              f_firstIndexNumber (fg.1) = 3 * Z.of_nat k
              ∧ (k < length (Octree.faces (octree s)))%nat) as Hk.
    { intros k fg Hfg. split.
      - apply renumber_lookup in Hfg as [-> _]; lia.
      - apply lookup_lt_Some in Hfg. by rewrite length_renumber in Hfg. }
    split.
    { split; [lia|]. split.
      { rewrite Nat2Z.inj_mul, Z.mul_comm. apply Z.mod_mul. lia. }
      split. { intros x Hx. by apply not_elem_of_empty in Hx. }
      split.
      { intros fg (k & Hfg)%list_elem_of_lookup_1.
        destruct (Hk k fg Hfg) as [-> Hlt].
        split; [lia|]. split.
        - rewrite Z.mul_comm. apply Z.mod_mul. lia.
        - split; [lia|apply not_elem_of_empty]. }
      split; [|done].
      apply NoDup_alt. intros j k x Hj Hk'.
      rewrite list_lookup_fmap in Hj, Hk'.
      destruct (renumber 0 _ !! j) as [fg1|] eqn:E1; [|done].
      destruct (renumber 0 _ !! k) as [fg2|] eqn:E2; [|done].
      simpl in Hj, Hk'. destruct (Hk j fg1 E1) as [H1 _].
      destruct (Hk k fg2 E2) as [H2 _]. simplify_eq. lia. }
    split; [lia|]. do 7 (split; [done|]). by eexists.
Qed.

(** X9.  After any sequence of edits on a new mesh, [writeIndices ()]
    does not trip an assertion; afterwards there is no free offset,
    [numIndices ()] is [3 * numFaces ()], the faces are the same by id and
    order, and the index buffer holds, from each face's first index number
    on, the three vertex indices of that face. *)
Theorem writeIndices_after_edits (ops : list EditOp) (i : Id) (s : Impl) :
  Z.of_nat (length ops) < 2 ^ 32 →
  runEdits ops (new i) = Some s →
  ∃ s', writeIndices s = Some s'
    ∧ freeFirstIndexNumbers s' = ∅
    ∧ numIndices s' = 3 * numFaces s'
    ∧ (λ fg, f_id (fg.1)) <$> Octree.faces (octree s')
      = (λ fg, f_id (fg.1)) <$> Octree.faces (octree s)
    ∧ ∀ fg, fg ∈ Octree.faces (octree s') →
        let n := f_firstIndexNumber (fg.1) in
        let '(a, b, c) :=
          faceVertexIndices (edges s') (f_edge (fg.1)) (f_id (fg.1)) in
        0 ≤ n ∧ n + 3 ≤ numIndices s'
        ∧ Mesh.indices (mesh s') !! Z.to_nat n = Some a
        ∧ Mesh.indices (mesh s') !! Z.to_nat (n + 1) = Some b
        ∧ Mesh.indices (mesh s') !! Z.to_nat (n + 2) = Some c.
Proof.
  intros Hmax Hrun.
  destruct (meshOk_run ops (new i) s (meshOk_new i) ltac:(simpl; lia) Hrun)
    as [(_ & _ & Hs & Hf) _].
  destruct (writeIndices_ok s Hs Hf)
    as (s' & Hw & Hs' & Hf' & HX & _ & Hes & _ & _ & _ & Hid & l0 & Hl0).
  exists s'. split; [done|]. split; [done|].
  destruct Hs' as (Hn & Hmod & Hfree & Hfaces & Hfins & Hids).
  unfold slotsFull in Hf'. rewrite HX, size_empty in Hf'.
  assert (numIndices s' = Z.of_nat (length (Mesh.indices (mesh s')))) as Hnum.
  { unfold numIndices, Mesh.numIndices. apply u32_small. lia. }
  split.
  { rewrite Hnum, Hf'. unfold numFaces, Octree.numFaces.
    rewrite u32_small; lia. }
  split; [done|].
  intros fg Hfg n. destruct (Hfaces fg Hfg) as (H0 & Hm & H3 & _).
  assert (NoDup ((facesWrites (edges s) (Octree.faces (octree s'))).*1))
    as Hnd.
  { apply (facesWrites_NoDup _ _
             (Z.of_nat (length (Mesh.indices (mesh s'))))); [lia| |done].
    intros fg' Hfg'. destruct (Hfaces fg' Hfg') as (?&?&?&?). done. }
  assert (∀ iv, iv ∈ faceWrites (edges s) (fg.1) →
            Mesh.indices (mesh s') !! Z.to_nat (iv.1) = Some (iv.2)) as Hat.
  { intros [j v] Hjv. apply (applyWrites_lookup _ _ _ j v Hl0 Hnd).
    unfold facesWrites. apply list_elem_of_In, in_flat_map.
    exists fg. split; by apply list_elem_of_In. }
  rewrite faceWrites_plain in Hat by lia. rewrite Hes. fold n in Hat.
  destruct (faceVertexIndices (edges s) (f_edge (fg.1)) (f_id (fg.1)))
    as [[a b] c].
  rewrite Hnum. split; [done|]. split; [done|].
  split; [|split].
  - apply (Hat (n, a)). set_solver.
  - apply (Hat (n + 1, b)). set_solver.
  - apply (Hat (n + 2, c)). set_solver.
Qed.
End writeAfterEdits.

(** ** [writeNormals] and [writeAndBuffer] after edits *)

Section normalsAfterEdits.
Context `{Geometry}.
Import WingedMesh.

Lemma setNormal_Some (j : Z) (n : Vec3) (m m1 : Mesh.t) :
  Mesh.setNormal j n m = Some m1 →
  0 ≤ j < Z.of_nat (length (Mesh.normals m))
  ∧ Mesh.vertices m1 = Mesh.vertices m
  ∧ Mesh.normals m1 = <[Z.to_nat j := n]> (Mesh.normals m).
Proof.
  unfold Mesh.setNormal.
  destruct (Mesh.inRange j (Mesh.normals m)) eqn:Hr; [|done].
  apply inRange_spec in Hr. by intros [= <-].
Qed.

(** The records from position [j0] on, each with its position as index:
    the loop stores their normals at those positions and leaves the
    positions before [j0] alone. *)
Lemma writeNormalsList_lookup (es : list WingedEdge) (vs : list WingedVertex)
    (j0 : nat) (m m' : Mesh.t) :
  (∀ k v, vs !! k = Some v → v_index v = Z.of_nat (j0 + k)) →
  writeNormalsList es vs m = Some m' →
  Mesh.vertices m' = Mesh.vertices m
  ∧ (∀ k v, vs !! k = Some v →
       Mesh.normals m' !! (j0 + k)%nat
       = Some (vertexNormal (Mesh.vertices m) es v))
  ∧ (∀ k, (k < j0)%nat → Mesh.normals m' !! k = Mesh.normals m !! k).
Proof.
  revert j0 m. induction vs as [|w vs IH]; intros j0 m Hidx; simpl.
  - intros [= <-]. split; [done|]. split; [|done].
    intros k v Hk. by rewrite lookup_nil in Hk.
  - destruct (Mesh.setNormal _ _ m) as [m1|] eqn:Hset; simpl; [|done].
    apply setNormal_Some in Hset as (Hr & Hv1 & Hn1).
    pose proof (Hidx 0%nat w eq_refl) as Hw.
    replace (j0 + 0)%nat with j0 in Hw by lia. rewrite Hw in Hr, Hn1.
    rewrite Nat2Z.id in Hn1.
    intros Hrest. apply (IH (S j0)) in Hrest as (Hv & Hat & Hbefore).
    + split; [by rewrite Hv|]. split.
      * intros [|k] v Hk; simpl in Hk.
        -- injection Hk as <-. replace (j0 + 0)%nat with j0 by lia.
           rewrite Hbefore by lia. rewrite Hn1.
           apply list_lookup_insert_eq. lia.
        -- replace (j0 + S k)%nat with (S j0 + k)%nat by lia.
           rewrite (Hat k v Hk). by rewrite Hv1.
      * intros k Hk. rewrite Hbefore by lia. rewrite Hn1.
        apply list_lookup_insert_ne. lia.
    + intros k v Hk. rewrite (Hidx (S k) v Hk). f_equal. lia.
Qed.

Lemma writeNormals_ok (s : Impl) :
  verticesOk s →
  ∃ s', writeNormals s = Some s'
    ∧ s' = setMesh (mesh s') s
    ∧ Mesh.normals (mesh s')
      = vertexNormal (Mesh.vertices (mesh s)) (edges s) <$> vertices s
    ∧ Mesh.vertices (mesh s') = Mesh.vertices (mesh s)
    ∧ Mesh.indices (mesh s') = Mesh.indices (mesh s).
Proof.
  intros (Hpar & Hnor & Hidx).
  destruct (writeNormalsList_ok (edges s) (vertices s) (mesh s)) as [m' Hm'].
  { apply Forall_forall. intros v (k & Hk)%list_elem_of_lookup_1.
    apply inRange_spec. rewrite (Hidx k v Hk). apply lookup_lt_Some in Hk.
    lia. }
  exists (setMesh m' s). unfold writeNormals. rewrite Hm'. simpl.
  split; [done|]. split; [done|].
  destruct (writeNormalsList_Some _ _ _ _ Hm') as (Hi & Hlen & _).
  destruct (writeNormalsList_lookup (edges s) (vertices s) 0 (mesh s) m')
    as (Hv & Hat & _); [done|done|].
  split; [|done]. apply list_eq. intros k. rewrite list_lookup_fmap.
  destruct (vertices s !! k) as [v|] eqn:Hk; simpl.
  - apply (Hat k v Hk).
  - apply lookup_ge_None. apply lookup_ge_None in Hk. lia.
Qed.

(** X10.  After any sequence of edits on a new mesh, [writeNormals ()]
    does not trip an assertion: it stores at each vertex's buffer index the
    normal computed for that vertex, so the normal array becomes the list of
    the vertices' normals in order, and positions, indices, faces and free
    offsets are as before. *)
Theorem writeNormals_after_edits (ops : list EditOp) (i : Id) (s : Impl) :
  Z.of_nat (length ops) < 2 ^ 32 →
  runEdits ops (new i) = Some s →
  ∃ s', writeNormals s = Some s'
    ∧ Mesh.normals (mesh s')
      = vertexNormal (Mesh.vertices (mesh s)) (edges s) <$> vertices s
    ∧ Mesh.vertices (mesh s') = Mesh.vertices (mesh s)
    ∧ Mesh.indices (mesh s') = Mesh.indices (mesh s)
    ∧ octree s' = octree s
    ∧ freeFirstIndexNumbers s' = freeFirstIndexNumbers s.
Proof.
  intros Hmax Hrun.
  destruct (meshOk_run ops (new i) s (meshOk_new i) ltac:(simpl; lia) Hrun)
    as [(Hv & _) _].
  destruct (writeNormals_ok s Hv) as (s' & Hw & Hs' & Hn & Hp & Hi).
  exists s'. do 4 (split; [done|]). by rewrite Hs'.
Qed.

(** X11.  After any sequence of edits on a new mesh, [writeAndBuffer ()]
    runs through without tripping an assertion: the mesh it leaves has no
    free offset, [3 * numFaces ()] indices, the positions it had, the
    vertices' normals, and a device copy equal to its three arrays; another
    [writeAndBuffer ()] right after runs through as well. *)
Theorem writeAndBuffer_after_edits (ops : list EditOp) (i : Id) (s : Impl) :
  Z.of_nat (length ops) < 2 ^ 32 →
  runEdits ops (new i) = Some s →
  ∃ s', writeAndBuffer s = Some s'
    ∧ freeFirstIndexNumbers s' = ∅
    ∧ numIndices s' = 3 * numFaces s'
    ∧ Mesh.vertices (mesh s') = Mesh.vertices (mesh s)
    ∧ Mesh.normals (mesh s')
      = vertexNormal (Mesh.vertices (mesh s)) (edges s) <$> vertices s
    ∧ Mesh.device (mesh s')
      = Some (Mesh.vertices (mesh s'), Mesh.normals (mesh s'),
              Mesh.indices (mesh s'))
    ∧ is_Some (writeAndBuffer s').
Proof.
  intros Hmax Hrun.
  destruct (meshOk_run ops (new i) s (meshOk_new i) ltac:(simpl; lia) Hrun)
    as [(Hv & He & Hs & Hf) _].
  assert (∀ s0, verticesOk s0 → slotsOk s0 → slotsFull s0 →
            ∃ s1, write s0 = Some s1
              ∧ verticesOk s1 ∧ slotsOk s1 ∧ slotsFull s1
              ∧ freeFirstIndexNumbers s1 = ∅
              ∧ Mesh.vertices (mesh s1) = Mesh.vertices (mesh s0)
              ∧ Mesh.normals (mesh s1)
                = vertexNormal (Mesh.vertices (mesh s0)) (edges s0)
                    <$> vertices s0) as Hwrite.
  { intros s0 Hv0 Hs0 Hf0.
    destruct (writeIndices_ok s0 Hs0 Hf0)
      as (sA & HwA & HsA & HfA & HX & E1 & E2 & E3 & E4 & E5 & _).
    pose proof (verticesOk_frame s0 sA E1 E4 E5 Hv0) as HvA.
    destruct (writeNormals_ok sA HvA) as (sB & HwB & HsB & Hn & Hp & Hi).
    exists sB. unfold write. rewrite HwA. simpl. split; [exact HwB|].
    assert (octree sB = octree sA ∧ freeFirstIndexNumbers sB
              = freeFirstIndexNumbers sA ∧ vertices sB = vertices sA) as
      (Eo & Ef & Ev) by (rewrite HsB; done).
    split.
    { destruct HvA as (Hpar & Hnor & Hidx). unfold verticesOk.
      rewrite Ev, Hp, Hn, length_fmap. done. }
    destruct (slots_frame sA sB Eo Ef Hi (conj HsA HfA)) as [HsB' HfB'].
    split; [done|]. split; [done|]. split; [by rewrite Ef|].
    split; [by rewrite Hp|]. by rewrite Hn, E4, E2, E1. }
  assert (∀ s1, freeFirstIndexNumbers s1 = ∅ →
            bufferData s1 = Some (setMesh (Mesh.bufferData (mesh s1)) s1))
    as Hbuf.
  { intros s1 HX. unfold bufferData. by rewrite HX, size_empty. }
  destruct (Hwrite s Hv Hs Hf) as (s1 & Hw1 & Hv1 & Hs1 & Hf1 & HX1 & Hp1 & Hn1).
  exists (setMesh (Mesh.bufferData (mesh s1)) s1).
  split. { unfold writeAndBuffer. rewrite Hw1. simpl. by apply Hbuf. }
  simpl. split; [done|]. split.
  { destruct Hs1 as (Hn & _). unfold slotsFull in Hf1.
    rewrite HX1, size_empty in Hf1.
    unfold numIndices, numFaces, Mesh.numIndices, Octree.numFaces. simpl.
    rewrite !u32_small by lia. lia. }
  split; [done|]. split; [done|]. split; [done|].
  destruct (Hwrite (setMesh (Mesh.bufferData (mesh s1)) s1))
    as (s2 & Hw2 & _ & _ & _ & HX2 & _); [done|done|done|].
  unfold writeAndBuffer. rewrite Hw2. simpl. rewrite (Hbuf s2 HX2). eauto.
Qed.

(** X12.  [reset ()] leaves the free set alone: on a mesh with a free
    offset, the face added after [reset ()] gets the least of the old free
    offsets although the index buffer is empty, and [numIndices ()] stays
    0. *)
Theorem reset_keeps_free_offsets (s : Impl) (f : WingedFace) (g : Triangle) :
  freeFirstIndexNumbers s ≠ ∅ →
  ∃ m f' s', addFace f g (reset s) = Some (f', s')
    ∧ m ∈ freeFirstIndexNumbers s
    ∧ (∀ x, x ∈ freeFirstIndexNumbers s → m ≤ x)
    ∧ f_firstIndexNumber f' = m
    ∧ Mesh.indices (mesh s') = []
    ∧ numIndices s' = 0
    ∧ numFaces s' = 1.
Proof.
  intros HX. destruct (set_begin_is_Some _ HX) as [m Hm].
  destruct (set_begin_spec _ _ Hm) as [Hin Hle].
  exists m. eexists _, _.
  split; [by apply (addFace_reuse (reset s) f g m)|]. by simpl.
Qed.

(** X13.  [initOctreeRoot] right after [reset ()] passes its assertion on
    every mesh and sets the root region; on a mesh that holds a vertex
    record it never returns. *)
Theorem reset_then_initOctreeRoot :
  (∀ (s : Impl) center width,
     ∃ s', initOctreeRoot center width (reset s) = Some s'
       ∧ Octree.root (octree s') = Some (center, width)
       ∧ isEmpty s' = Some true)
  ∧ (∀ (s : Impl) center width,
     vertices s ≠ [] → Z.of_nat (length (vertices s)) < 2 ^ 32 →
     initOctreeRoot center width s = None).
Proof.
  split.
  - intros s center width. by eexists.
  - intros s center width Hne Hmax. unfold initOctreeRoot, isEmpty, numVertices.
    destruct (bool_decide (Mesh.numVertices (mesh s)
                           = Z.of_nat (length (vertices s)))); simpl; [|done].
    rewrite u32_small by lia.
    rewrite (bool_decide_eq_false_2 (Z.of_nat (length (vertices s)) = 0));
      [done|].
    destruct (vertices s); [done|]. simpl. lia.
Qed.
End normalsAfterEdits.

(** ** What a ray query reports *)

Section reportedHits.
Context `{Geometry}.

Lemma testFace_genuine (m : WingedMesh.Impl) (ray : Ray)
    (i : WingedFaceIntersection) (l : list (WingedFace * Triangle))
    (acc : bool * WingedFaceIntersection) :
  (∀ fg, fg ∈ l → fg ∈ Octree.faces (WingedMesh.octree m)) →
  (acc.2 = i ∨ ∃ h, acc.2 = Some h ∧ genuineHit ray [m] h) →
  let r := foldl (Octree.testFace (WingedMesh.meshId m) ray) acc l in
  r.2 = i ∨ ∃ h, r.2 = Some h ∧ genuineHit ray [m] h.
Proof.
  revert acc. induction l as [|fg l IH]; intros acc Hsub Hacc; simpl; [done|].
  apply IH; [intros fg' Hfg'; apply Hsub; set_solver|].
  unfold Octree.testFace.
  destruct (rayTriangle ray (fg.2)) as [[d p]|] eqn:Hhit; [|done]. simpl.
  assert (genuineHit ray [m]
            (mkHit d p (WingedMesh.meshId m) (f_id (fg.1)))) as Hnew.
  { exists m, fg, d, p. split; [set_solver|]. split; [|done].
    apply Hsub. set_solver. }
  unfold updateIntersection. destruct (acc.2) as [h0|] eqn:Hacc2.
  - destruct (float_lt d (hit_distance h0)); [right; eauto|].
    destruct Hacc as [<-|(h & [= <-] & Hg)]; [by left|right; eauto].
  - right. eauto.
Qed.

Lemma genuineHit_mono (ray : Ray) (ms ms' : list WingedMesh.Impl) (h : Hit) :
  (∀ m, m ∈ ms → m ∈ ms') → genuineHit ray ms h → genuineHit ray ms' h.
Proof.
  intros Hsub (m & fg & d & p & Hm & Hrest). exists m, fg, d, p.
  split; [by apply Hsub|done].
Qed.

Lemma meshes_genuine (ray : Ray) (i : WingedFaceIntersection)
    (ms all : list WingedMesh.Impl) (acc : WingedFaceIntersection) :
  (∀ m, m ∈ ms → m ∈ all) →
  (acc = i ∨ ∃ h, acc = Some h ∧ genuineHit ray all h) →
  let r := foldl (λ a m, (WingedMesh.intersects ray a m).2) acc ms in
  r = i ∨ ∃ h, r = Some h ∧ genuineHit ray all h.
Proof.
  revert acc. induction ms as [|m ms IH]; intros acc Hsub Hacc; simpl; [done|].
  apply IH; [intros m' Hm'; apply Hsub; set_solver|].
  unfold WingedMesh.intersects, Octree.intersects.
  destruct (testFace_genuine m ray acc (Octree.faces (WingedMesh.octree m))
              (false, acc)) as [Hsame|(h & Hh & Hg)]; [done|by left| |].
  - simpl in Hsame. by rewrite Hsame.
  - right. exists h. split; [done|].
    apply (genuineHit_mono ray [m]); [|done].
    intros m' Hm'. apply list_elem_of_singleton in Hm' as ->.
    apply Hsub. set_solver.
Qed.

(** X14.  Whatever the scene's ray query leaves in the output parameter is
    either what was there on entry or, in [Freeform] mode, a hit that names
    a stored mesh by its id and a face of that mesh by its id, with the
    distance and position the ray/triangle test gives on that face.  So a
    query on a parameter holding no intersection that returns true reports
    such a hit. *)
Theorem scene_reports_stored_faces :
  (∀ (S : Scene.Impl) t ray i,
     (Scene.intersectsMode t ray i S).2 = i
     ∨ (t = Freeform
        ∧ ∃ h, (Scene.intersectsMode t ray i S).2 = Some h
             ∧ genuineHit ray (Scene.wingedMeshes S) h))
  ∧ (∀ (S : Scene.Impl) ray out,
     Scene.intersects ray None S = (true, out) →
     Scene.selectionMode S = Freeform
     ∧ ∃ h, out = Some h ∧ genuineHit ray (Scene.wingedMeshes S) h).
Proof.
  assert (∀ (S : Scene.Impl) t ray i,
     (Scene.intersectsMode t ray i S).2 = i
     ∨ (t = Freeform
        ∧ ∃ h, (Scene.intersectsMode t ray i S).2 = Some h
             ∧ genuineHit ray (Scene.wingedMeshes S) h)) as Hall.
  { intros S t ray i. unfold Scene.intersectsMode. destruct t; [|by left].
    simpl.
    destruct (meshes_genuine ray i (Scene.wingedMeshes S)
                (Scene.wingedMeshes S) i) as [?|?];
      [done|by left|by left|by right]. }
  split; [done|].
  intros S ray out Hq. unfold Scene.intersects in Hq.
  destruct (Hall S (Scene.selectionMode S) ray None) as [Hnone|(Hmode & h & Hh & Hg)].
  - rewrite (surjective_pairing (Scene.intersectsMode _ _ _ _)) in Hq.
    injection Hq as Hflag Hout. unfold Scene.intersectsMode in Hflag, Hnone.
    simpl in Hflag, Hnone. by rewrite Hnone in Hflag.
  - split; [done|]. exists h. split; [|done].
    rewrite Hq in Hh. done.
Qed.
End reportedHits.

(** ** The further theorems at the example meshes *)

Lemma exampleEdits_bound : Z.of_nat (length exampleEdits) < 2 ^ 32.
Proof. reflexivity. Defined.

Lemma exampleEdited_run :
  runEdits exampleEdits (WingedMesh.new 0) = Some exampleEdited.
Proof. vm_compute. reflexivity. Defined.

(** Two vertex records: index 1 is found at position 1, index 2 is not
    found, and the last vertex is the one with index 1. *)
Lemma vertices_indexed_by_position_witness :
  WingedMesh.numVertices exampleEdited = Some 2
  ∧ WingedMesh.vertexSLOW 1 exampleEdited = Some (mkVertex 1 None)
  ∧ WingedMesh.vertexSLOW 2 exampleEdited = None
  ∧ ∃ v, WingedMesh.lastVertex exampleEdited = Some v
       ∧ v_index v = 1
       ∧ WingedMesh.vertexSLOW 1 exampleEdited = Some v.
Proof.
  destruct (@vertices_indexed_by_position exampleGeometry exampleEdits 0
              exampleEdited exampleEdits_bound exampleEdited_run)
    as (Hn & Hscan & Hnone & _ & Hlast).
  split; [exact Hn|]. split; [|split].
  - rewrite (Hscan 1) by lia. vm_compute. reflexivity.
  - apply (Hnone 2); [lia|]. vm_compute. discriminate.
  - apply Hlast. vm_compute. discriminate.
Defined.

(** The one stored edge of [exampleEdited] deleted. *)
Lemma deleteEdge_erases_one_cell_witness :
  ∃ e, WingedMesh.edges exampleEdited !! 0%nat = Some e
     ∧ WingedMesh.edges (WingedMesh.deleteEdge e exampleEdited)
       = delete 0%nat (WingedMesh.edges exampleEdited).
Proof.
  eexists. split; [vm_compute; reflexivity|].
  apply (@deleteEdge_erases_one_cell exampleGeometry exampleEdits 0
           exampleEdited 0%nat _ exampleEdits_bound exampleEdited_run).
  vm_compute. reflexivity.
Defined.

(** An edge added to [exampleEdited] and deleted again. *)
Lemma addEdge_deleteEdge_round_trip_witness :
  WingedMesh.edges
    (WingedMesh.deleteEdge
       ((WingedMesh.addEdge (exampleEdge 6) exampleEdited).1)
       ((WingedMesh.addEdge (exampleEdge 6) exampleEdited).2))
  = WingedMesh.edges exampleEdited.
Proof.
  apply (@addEdge_deleteEdge_round_trip exampleGeometry exampleEdits 0
           exampleEdited (exampleEdge 6) exampleEdits_bound exampleEdited_run).
Defined.

(** [exampleEdited] stores an edge with id 5 and none with id 6. *)
Lemma addEdge_then_edgeSLOW_witness :
  WingedMesh.edgeSLOW 6 ((WingedMesh.addEdge (exampleEdge 6) exampleEdited).2)
    = Some ((WingedMesh.addEdge (exampleEdge 6) exampleEdited).1)
  ∧ WingedMesh.edgeSLOW 5
      ((WingedMesh.addEdge (exampleEdge 5) exampleEdited).2)
    = WingedMesh.edgeSLOW 5 exampleEdited
  ∧ WingedMesh.edgeSLOW 5
      ((WingedMesh.addEdge (exampleEdge 6) exampleEdited).2)
    = WingedMesh.edgeSLOW 5 exampleEdited.
Proof.
  destruct (@addEdge_then_edgeSLOW exampleGeometry exampleEdited
              (exampleEdge 6)) as (_ & Hnew & _ & Hother).
  destruct (@addEdge_then_edgeSLOW exampleGeometry exampleEdited
              (exampleEdge 5)) as (_ & _ & Hold & _).
  split; [apply Hnew; vm_compute; reflexivity|]. split.
  - destruct (WingedMesh.edgeSLOW 5 exampleEdited) as [e0|] eqn:He0.
    + apply (Hold e0). exact He0.
    + vm_compute in He0. discriminate He0.
  - apply (Hother 5). simpl. lia.
Defined.

(** The one free offset of [exampleDirty] taken; the next call fails. *)
Lemma nextFreeFirstIndexNumber_ascends_witness :
  ∃ s1, WingedMesh.nextFreeFirstIndexNumber exampleDirty = Some (3, s1)
      ∧ S (size (WingedMesh.freeFirstIndexNumbers s1))
        = size (WingedMesh.freeFirstIndexNumbers exampleDirty)
      ∧ WingedMesh.nextFreeFirstIndexNumber exampleClean = None.
Proof.
  destruct (@nextFreeFirstIndexNumber_ascends exampleGeometry)
    as (Hnone & Hsome).
  eexists.
  match goal with
  | |- WingedMesh.nextFreeFirstIndexNumber exampleDirty = Some (3, ?s1) ∧ _ =>
      assert (WingedMesh.nextFreeFirstIndexNumber exampleDirty = Some (3, s1))
        as Hn by (vm_compute; reflexivity);
      destruct (Hsome exampleDirty s1 3 Hn) as (_ & _ & Hsize & _)
  end.
  split; [exact Hn|]. split; [exact Hsize|].
  apply (proj2 (Hnone exampleClean)). reflexivity.
Defined.

(** The face of [exampleClean] deleted and another one added. *)
Lemma deleteFace_addFace_recycles_offset_witness :
  ∃ f' s',
    WingedMesh.addFace (exampleFace 7) (exampleTriangle 7 1)
      (WingedMesh.deleteFace (exampleFace 0) exampleClean) = Some (f', s')
    ∧ f_firstIndexNumber f' = f_firstIndexNumber (exampleFace 0)
    ∧ length (Mesh.indices (WingedMesh.mesh s'))
      = length (Mesh.indices (WingedMesh.mesh exampleClean))
    ∧ WingedMesh.freeFirstIndexNumbers s' = ∅.
Proof.
  apply (@deleteFace_addFace_recycles_offset exampleGeometry exampleClean
           (exampleFace 0) (exampleFace 7) (exampleTriangle 7 1)).
  - reflexivity.
  - simpl. lia.
  - simpl. lia.
  - simpl. lia.
Defined.

(** [exampleEdited]: one face, one free offset, 6 indices. *)
Lemma faces_own_disjoint_triples_witness :
  WingedMesh.numIndices exampleEdited
  = 3 * (WingedMesh.numFaces exampleEdited
         + Z.of_nat (size (WingedMesh.freeFirstIndexNumbers exampleEdited))).
Proof.
  apply (@faces_own_disjoint_triples exampleGeometry exampleEdits 0
           exampleEdited exampleEdits_bound exampleEdited_run).
Defined.

(** The face with id 1 of [exampleEdited]. *)
Lemma face_lookup_follows_edits_witness :
  WingedMesh.face 1 exampleEdited = Some (mkFace None 1 None 3)
  ∧ WingedMesh.face 1
      (WingedMesh.deleteFace (mkFace None 1 None 3) exampleEdited) = None.
Proof.
  destruct (@face_lookup_follows_edits exampleGeometry exampleEdits 0
              exampleEdited exampleEdits_bound exampleEdited_run)
    as (Hfind & Hgone).
  assert ((mkFace None 1 None 3, exampleTriangle 1 1)
            ∈ Octree.faces (WingedMesh.octree exampleEdited)) as Hin
    by (vm_compute; apply list_elem_of_here).
  split; [apply (Hfind _ Hin)|apply (Hgone _ Hin)].
Defined.

(** [exampleEdited] written: the free offset is gone and the one face is
    at offset 0. *)
Lemma writeIndices_after_edits_witness :
  ∃ s', WingedMesh.writeIndices exampleEdited = Some s'
      ∧ WingedMesh.freeFirstIndexNumbers s' = ∅
      ∧ WingedMesh.numIndices s' = 3 * WingedMesh.numFaces s'.
Proof.
  destruct (@writeIndices_after_edits exampleGeometry exampleEdits 0
              exampleEdited exampleEdits_bound exampleEdited_run)
    as (s' & Hw & HX & Hn & _).
  by exists s'.
Defined.

Lemma writeNormals_after_edits_witness :
  ∃ s', WingedMesh.writeNormals exampleEdited = Some s'
      ∧ Mesh.indices (WingedMesh.mesh s')
        = Mesh.indices (WingedMesh.mesh exampleEdited).
Proof.
  destruct (@writeNormals_after_edits exampleGeometry exampleEdits 0
              exampleEdited exampleEdits_bound exampleEdited_run)
    as (s' & Hw & _ & _ & Hi & _).
  by exists s'.
Defined.

Lemma writeAndBuffer_after_edits_witness :
  ∃ s', WingedMesh.writeAndBuffer exampleEdited = Some s'
      ∧ WingedMesh.freeFirstIndexNumbers s' = ∅
      ∧ is_Some (WingedMesh.writeAndBuffer s').
Proof.
  destruct (@writeAndBuffer_after_edits exampleGeometry exampleEdits 0
              exampleEdited exampleEdits_bound exampleEdited_run)
    as (s' & Hw & HX & _ & _ & _ & _ & Hagain).
  by exists s'.
Defined.

(** [exampleDirty] reset: the next face gets the stale offset 3. *)
Lemma reset_keeps_free_offsets_witness :
  ∃ m f' s',
    WingedMesh.addFace (exampleFace 7) (exampleTriangle 7 1)
      (WingedMesh.reset exampleDirty) = Some (f', s')
    ∧ m ∈ WingedMesh.freeFirstIndexNumbers exampleDirty
    ∧ f_firstIndexNumber f' = m
    ∧ WingedMesh.numIndices s' = 0.
Proof.
  destruct (@reset_keeps_free_offsets exampleGeometry exampleDirty
              (exampleFace 7) (exampleTriangle 7 1) exampleDirty_has_free)
    as (m & f' & s' & Hadd & Hin & _ & Hf & _ & Hn & _).
  by exists m, f', s'.
Defined.

(** [exampleEdited] holds two vertex records. *)
Lemma reset_then_initOctreeRoot_witness :
  @WingedMesh.initOctreeRoot exampleGeometry (0, 0, 0) 8 exampleEdited = None.
Proof.
  apply (proj2 (@reset_then_initOctreeRoot exampleGeometry) exampleEdited
           ((0, 0, 0) : @Vec3 exampleGeometry) (8 : @Float exampleGeometry)).
  - vm_compute. discriminate.
  - vm_compute. reflexivity.
Defined.

(** A scene that stores [exampleClean], queried with the ray 0. *)
Lemma scene_reports_stored_faces_witness :
  ∃ out,
    @Scene.intersects exampleGeometry 0 None
      (Scene.mkImpl [exampleClean] Freeform) = (true, out)
    ∧ ∃ h, out = Some h
         ∧ @genuineHit exampleGeometry 0 [exampleClean] h.
Proof.
  eexists. split; [vm_compute; reflexivity|].
  apply (proj2 (@scene_reports_stored_faces exampleGeometry)
           (Scene.mkImpl [exampleClean] Freeform) 0 _).
  vm_compute. reflexivity.
Defined.
